(** * Order-fill reconciliation scripts of deanturpin/lft

    A shallow embedding of [analyze_win_rates.py] (strategy win rates by
    matching sells to earlier buys), [analyze_trades.py] (per-symbol
    totals) and the per-symbol statistics of [bin/fetch_today_prices.py],
    followed by the properties proved about them.

    Conventions of the embedding.
    - An order is the JSON object returned by the broker.  Only the keys the
      scripts read are kept; each key is absent, [null], or present with a
      value of the type the broker documents (strings, and string-or-number
      for prices and quantities).
    - Python [float]s are represented by exact rationals ([Q]); rounding,
      infinities and NaN are not represented.  [float(s)] on a string is the
      section variable [float_of_str].  Where a property depends on the order
      of additions, the totals are embedded a second time over binary64
      numbers ([Binary64]).
    - An uncaught Python exception is a value of [exn]; a loop that raises
      stops in the state it had reached.
    - Of the price script only the computation on a received response is
      embedded: the request itself, the clock and the environment are not. *)

From Stdlib Require Import ZArith QArith Qabs List String Ascii Bool Lia Permutation Sorted.
From stdpp Require Import base option list strings gmap.
From Corelib Require PrimFloat.

Local Open Scope string_scope.
Local Open Scope list_scope.
Local Open Scope Q_scope.

(** ** Exceptions and fallible computations *)

Inductive exn : Type :=
| KeyError (key : string)
| TypeError
| ValueError
| IndexError
| ZeroDivisionError.

Inductive result (A : Type) : Type :=
| Ok (a : A)
| Raise (e : exn).
Arguments Ok {A} a.
Arguments Raise {A} e.

#[global] Instance result_ret : MRet result := fun A a => Ok a.
#[global] Instance result_bind : MBind result := fun A B k r =>
  match r with
  | Ok a => k a
  | Raise e => Raise e
  end.

(** [for s in l: body] over a state: the state reached, and the exception
    that stopped the loop if one was raised. *)
Fixpoint for_each {S A : Type} (body : S -> A -> result S) (s : S) (l : list A)
  : S * option exn :=
  match l with
  | [] => (s, None)
  | a :: l' =>
      match body s a with
      | Ok s' => for_each body s' l'
      | Raise e => (s, Some e)
      end
  end.

(** ** Raw order records *)

Inductive field (A : Type) : Type :=
| Absent
| Null
| Val (a : A).
Arguments Absent {A}.
Arguments Null {A}.
Arguments Val {A} a.

(** A price or quantity: the broker sends decimal strings, JSON numbers are
    accepted as well. *)
Inductive scalar : Type :=
| SStr (s : string)
| SNum (q : Q).

Record order : Type := mkOrder {
  o_symbol : field string;
  o_side : field string;
  o_qty : field scalar;
  o_filled_qty : field scalar;
  o_filled_avg_price : field scalar;
  o_filled_at : field string;
  o_created_at : field string;
  o_client_order_id : field string
}.

(** [order.get(k)]: [None] when the key is absent or null. *)
Definition get {A} (f : field A) : option A :=
  match f with
  | Val a => Some a
  | _ => None
  end.

(** [order.get(k, d)]: the default only when the key is absent. *)
Definition get_default {A} (f : field A) (d : option A) : option A :=
  match f with
  | Absent => d
  | Null => None
  | Val a => Some a
  end.

(** [order[k]]. *)
Definition getitem {A} (key : string) (f : field A) : result (option A) :=
  match f with
  | Absent => Raise (KeyError key)
  | Null => Ok None
  | Val a => Ok (Some a)
  end.

(** ** Python primitives on strings and numbers *)

Definition Qltb (x y : Q) : bool := negb (Qle_bool y x).

(** [x / y] on floats. *)
Definition py_div (x y : Q) : result Q :=
  if Qeq_bool y 0 then Raise ZeroDivisionError else Ok (x / y).

(** [sum(l)]. *)
Definition py_sum (l : list Q) : Q := fold_left Qplus l 0.

(** ['_' in s]. *)
Fixpoint contains (c : ascii) (s : string) : bool :=
  match s with
  | EmptyString => false
  | String a s' => Ascii.eqb a c || contains c s'
  end.

(** [s.split(c)] for a one-character separator. *)
Fixpoint split (c : ascii) (s : string) : list string :=
  match s with
  | EmptyString => [EmptyString]
  | String a s' =>
      if Ascii.eqb a c then EmptyString :: split c s'
      else match split c s' with
           | t :: ts => String a t :: ts
           | [] => [String a EmptyString]
           end
  end.

(** [s[:n]]. *)
Fixpoint take_str (n : nat) (s : string) : string :=
  match n, s with
  | S n', String a s' => String a (take_str n' s')
  | _, _ => EmptyString
  end.

(** Truthiness of a string-or-number value ([if v]). *)
Definition truthy (v : option scalar) : bool :=
  match v with
  | None => false
  | Some (SStr s) => negb (String.eqb s "")
  | Some (SNum q) => negb (Qeq_bool q 0)
  end.

(** A reader of plain decimal literals ([12], [12.5], [-0.75]), used where a
    concrete [float] on strings is needed. *)
Definition digit_of (a : ascii) : option Z :=
  let n := Z.of_N (N_of_ascii a) in
  if ((48 <=? n) && (n <=? 57))%Z then Some (n - 48)%Z else None.

Fixpoint read_digits (s : string) (acc : Z) (scale : positive) (frac : bool) (seen : bool)
  : option Q :=
  match s with
  | EmptyString => if seen then Some (acc # scale) else None
  | String a s' =>
      if Ascii.eqb a "."%char then
        if frac then None else read_digits s' acc scale true seen
      else
        match digit_of a with
        | Some d =>
            read_digits s' (10 * acc + d)%Z (if frac then (10 * scale)%positive else scale)
              frac true
        | None => None
        end
  end.

Definition decimal_float (s : string) : option Q :=
  match s with
  | String "-"%char s' => option_map Qopp (read_digits s' 0 1 false false)
  | _ => read_digits s 0 1 false false
  end.

(** [float(v)], given [float] on strings ([None] stands for [ValueError]). *)
Definition py_float (float_of_str : string -> option Q) (v : option scalar) : result Q :=
  match v with
  | None => Raise TypeError
  | Some (SNum q) => Ok q
  | Some (SStr s) =>
      match float_of_str s with
      | Some q => Ok q
      | None => Raise ValueError
      end
  end.

(** [l.sort(key=...)] and [sorted(l)] on string keys: the stable ascending
    order. *)
Fixpoint insert_by {A : Type} (key : A -> string) (x : A) (l : list A) : list A :=
  match l with
  | [] => [x]
  | y :: l' =>
      if String.leb (key x) (key y) then x :: y :: l'
      else y :: insert_by key x l'
  end.

Fixpoint sort_by {A : Type} (key : A -> string) (l : list A) : list A :=
  match l with
  | [] => []
  | x :: l' => insert_by key x (sort_by key l')
  end.

(** ** analyze_win_rates.py *)

Record buy_fill : Type := mkBuy {
  b_symbol : option string;
  b_strategy : string;
  b_price : Q;
  b_qty : Q;
  b_time : string;
  b_notional : Q
}.

Record sell_fill : Type := mkSell {
  s_symbol : option string;
  s_price : Q;
  s_qty : Q;
  s_time : string;
  s_notional : Q
}.

Record trade : Type := mkTrade {
  t_symbol : option string;
  t_buy_price : Q;
  t_sell_price : Q;
  t_pnl : Q;
  t_pnl_pct : Q;
  t_date : string
}.

(** One entry of [strategy_stats]. *)
Record stats : Type := mkStats {
  wins : nat;
  losses : nat;
  total_pnl : Q;
  trades : list trade
}.

(** The [defaultdict] factory. *)
Definition new_stats : stats := mkStats 0 0 0 [].

Module WinRates.

Section Script.

(** [float(s)] on a string: [None] stands for [ValueError]. *)
Variable float_of_str : string -> option Q.

(** Lines 39-43: the strategy tag of a buy order. *)
Definition strategy_of (client_order_id : field string) : result string :=
  let client_id := get_default client_order_id (Some "") in
  match client_id with
  | Some s =>
      if negb (String.eqb s "") && contains "_" s then
        match split "_" s !! 1%nat with
        | Some t => Ok t
        | None => Raise IndexError
        end
      else Ok "UNKNOWN"
  | None => Ok "UNKNOWN"
  end.

(** Lines 34-60: the body of the classification loop. *)
Definition classify_order (st : list buy_fill * list sell_fill) (o : order)
  : result (list buy_fill * list sell_fill) :=
  let '(buys, sells) := st in
  match get (o_filled_at o) with
  | None => Ok st
  | Some filled_at =>
      side ← getitem "side" (o_side o);
      if bool_decide (side = Some "buy") then
        strategy ← strategy_of (o_client_order_id o);
        symbol ← getitem "symbol" (o_symbol o);
        price ← py_float float_of_str (get_default (o_filled_avg_price o) (Some (SNum 0)));
        qty ← py_float float_of_str (get_default (o_filled_qty o) (Some (SNum 0)));
        price' ← py_float float_of_str (get_default (o_filled_avg_price o) (Some (SNum 0)));
        qty' ← py_float float_of_str (get_default (o_filled_qty o) (Some (SNum 0)));
        Ok ((buys ++ [mkBuy symbol strategy price qty filled_at (price' * qty')]), sells)
      else if bool_decide (side = Some "sell") then
        symbol ← getitem "symbol" (o_symbol o);
        price ← py_float float_of_str (get_default (o_filled_avg_price o) (Some (SNum 0)));
        qty ← py_float float_of_str (get_default (o_filled_qty o) (Some (SNum 0)));
        price' ← py_float float_of_str (get_default (o_filled_avg_price o) (Some (SNum 0)));
        qty' ← py_float float_of_str (get_default (o_filled_qty o) (Some (SNum 0)));
        Ok (buys, (sells ++ [mkSell symbol price qty filled_at (price' * qty')]))
      else Ok st
  end.

Definition classify (orders : list order)
  : (list buy_fill * list sell_fill) * option exn :=
  for_each classify_order ([], []) orders.

(** Line 73: the test of the inner loop. *)
Definition eligible (sell : sell_fill) (buy : buy_fill) : bool :=
  bool_decide (b_symbol buy = s_symbol sell) && String.ltb (b_time buy) (s_time sell).

(** Lines 72-73: the first index of [buys] that passes the test. *)
Fixpoint find_buy (sell : sell_fill) (buys : list buy_fill) : option (nat * buy_fill) :=
  match buys with
  | [] => None
  | buy :: buys' =>
      if eligible sell buy then Some (0%nat, buy)
      else
        match find_buy sell buys' with
        | Some (i, b) => Some (S i, b)
        | None => None
        end
  end.

(** Lines 78-93: filing a trade under its strategy. *)
Definition record_trade (strategy_stats : gmap string stats) (strategy : string)
    (t : trade) : gmap string stats :=
  let st := default new_stats (strategy_stats !! strategy) in
  let st := mkStats (wins st) (losses st) (total_pnl st) (trades st ++ [t]) in
  let st :=
    if Qltb 0 (t_pnl t)
    then mkStats (wins st + 1) (losses st) (total_pnl st) (trades st)
    else mkStats (wins st) (losses st + 1) (total_pnl st) (trades st) in
  let st := mkStats (wins st) (losses st) (total_pnl st + t_pnl t) (trades st) in
  <[strategy := st]> strategy_stats.

(** Lines 75-86: the trade of a sell and the buy chosen for it. *)
Definition make_trade (sell : sell_fill) (buy : buy_fill) : result trade :=
  let pnl := s_notional sell - b_notional buy in
  r ← py_div pnl (b_notional buy);
  let pnl_pct := r * 100 in
  Ok (mkTrade (b_symbol buy) (b_price buy) (s_price sell) pnl pnl_pct
        (take_str 10 (b_time buy))).

(** Lines 70-97: the body of the matching loop. *)
Definition match_sell (st : gmap string stats * list buy_fill) (sell : sell_fill)
  : result (gmap string stats * list buy_fill) :=
  let '(strategy_stats, buys) := st in
  match find_buy sell buys with
  | None => Ok st
  | Some (i, buy) =>
      t ← make_trade sell buy;
      Ok (record_trade strategy_stats (b_strategy buy) t, delete i buys)
  end.

(** Lines 62-97. *)
Definition reconcile (buys : list buy_fill) (sells : list sell_fill)
  : (gmap string stats * list buy_fill) * option exn :=
  for_each match_sell (∅, sort_by b_time buys) (sort_by s_time sells).

(** The whole script up to the report: the statistics it prints and the
    buys left unmatched, or the exception that ends it before any output. *)
Definition run (orders : list order) : result (gmap string stats * list buy_fill) :=
  match classify orders with
  | (_, Some e) => Raise e
  | ((buys, sells), None) =>
      match reconcile buys sells with
      | (_, Some e) => Raise e
      | (st, None) => Ok st
      end
  end.

End Script.

(** One line of the summary table (lines 104-108), before formatting. *)
Record summary_row : Type := mkSummary {
  sr_strategy : string;
  sr_wins : nat;
  sr_losses : nat;
  sr_total : nat;
  sr_win_rate : Q;
  sr_total_pnl : Q
}.

(** [sorted(strategy_stats.keys())]. *)
Definition sorted_keys (strategy_stats : gmap string stats) : list string :=
  sort_by id (fst <$> map_to_list strategy_stats).

(** Lines 106-107. *)
Definition win_rate (st : stats) : Q :=
  let total := (wins st + losses st)%nat in
  if bool_decide (0 < total)%nat
  then inject_Z (Z.of_nat (wins st)) / inject_Z (Z.of_nat total) * 100
  else 0.

(** Lines 104-108: the summary table. *)
Definition summary (strategy_stats : gmap string stats) : list summary_row :=
  map (fun strategy =>
         let st := default new_stats (strategy_stats !! strategy) in
         mkSummary strategy (wins st) (losses st) (wins st + losses st) (win_rate st)
           (total_pnl st))
      (sorted_keys strategy_stats).

(** [l[-n:]] for [n > 0]. *)
Definition last_n {A : Type} (n : nat) (l : list A) : list A :=
  drop (length l - n) l.

(** Line 120: the mark of a trade ([true] for the green one). *)
Definition mark (t : trade) : bool := Qltb 0 (t_pnl t).

(** Line 121: the line of one trade, with its mark; a symbol that is [None]
    does not format with a width, and [TypeError] is raised. *)
Definition trade_line (t : trade) : result (trade * bool) :=
  match t_symbol t with
  | Some _ => Ok (t, mark t)
  | None => Raise TypeError
  end.

(** Lines 119-121: the lines of the trades shown for one strategy. *)
Definition trade_lines (recent : list trade) : list (trade * bool) * option exn :=
  for_each (fun lines t => l ← trade_line t; Ok (lines ++ [l])) [] recent.

(** Lines 113-121: for each strategy its heading and the lines of its last
    ten trades; what was printed, and the exception that stopped the listing
    if one was raised. *)
Fixpoint list_strategies (strategy_stats : gmap string stats) (strategies : list string)
  : list (string * list (trade * bool)) * option exn :=
  match strategies with
  | [] => ([], None)
  | strategy :: rest =>
      let st := default new_stats (strategy_stats !! strategy) in
      match trade_lines (last_n 10 (trades st)) with
      | (lines, Some e) => ([(strategy, lines)], Some e)
      | (lines, None) =>
          let '(out, e) := list_strategies strategy_stats rest in
          ((strategy, lines) :: out, e)
      end
  end.

Definition recent_trades (strategy_stats : gmap string stats)
  : list (string * list (trade * bool)) * option exn :=
  list_strategies strategy_stats (sorted_keys strategy_stats).

End WinRates.

(** ** analyze_trades.py *)

(** One printed line of the per-fill table (line 28), before formatting. *)
Record row : Type := mkRow {
  r_symbol : string;
  r_side : string;
  r_qty : scalar;
  r_price : Q;
  r_notional : Q;
  r_time : string
}.

(** One printed line of the per-symbol breakdown (lines 57-62). *)
Inductive symbol_line : Type :=
| Closed (buy_sum sell_sum pnl : Q)
| StillOpen (buy_sum : Q)
| CloseOnly (sell_sum : Q).

Module Trades.

(** The variables of the main loop, and the rows printed so far. *)
Record state : Type := mkState {
  printed : list row;
  total_buy : Q;
  total_sell : Q;
  pairs : gmap string (list Q * list Q)
}.

Definition init : state := mkState [] 0 0 ∅.

(** [format(v, '<10')]: [None] has no such format. *)
Definition py_format {A} (v : option A) : result A :=
  match v with
  | Some a => Ok a
  | None => Raise TypeError
  end.

(** Lines 32-34 and 37-39. *)
Definition append_buy (pairs : gmap string (list Q * list Q)) (symbol : string)
    (notional : Q) : gmap string (list Q * list Q) :=
  let '(buys, sells) := default ([], []) (pairs !! symbol) in
  <[symbol := ((buys ++ [notional]), sells)]> pairs.

Definition append_sell (pairs : gmap string (list Q * list Q)) (symbol : string)
    (notional : Q) : gmap string (list Q * list Q) :=
  let '(buys, sells) := default ([], []) (pairs !! symbol) in
  <[symbol := (buys, (sells ++ [notional]))]> pairs.

Section Script.

Variable float_of_str : string -> option Q.

(** Line 21. *)
Definition notional_of (o : order) : result Q :=
  if truthy (get (o_filled_avg_price o)) then
    price ← py_float float_of_str (get_default (o_filled_avg_price o) (Some (SNum 0)));
    qty ← py_float float_of_str (get_default (o_filled_qty o) (Some (SNum 0)));
    Ok (price * qty)
  else Ok 0.

(** Lines 22-26. *)
Definition time_of (o : order) : string :=
  match get_default (o_filled_at o) (get_default (o_created_at o) (Some "")) with
  | Some t => if String.eqb t "" then "N/A" else take_str 19 t
  | None => "N/A"
  end.

(** Lines 17-28: the fields read from an order and the row printed for it. *)
Definition row_of (o : order) : result (option string * option string * row) :=
  symbol ← getitem "symbol" (o_symbol o);
  side ← getitem "side" (o_side o);
  let qty := get_default (o_filled_qty o) (get_default (o_qty o) (Some (SStr "0"))) in
  let filled_price := get_default (o_filled_avg_price o) (Some (SStr "0")) in
  notional ← notional_of o;
  let filled_at := time_of o in
  symbol' ← py_format symbol;
  side' ← py_format side;
  qty' ← py_format qty;
  price ← py_float float_of_str filled_price;
  Ok (symbol, side, mkRow symbol' side' qty' price notional filled_at).

(** Lines 16-39: the body of the main loop. *)
Definition process_order (st : state) (o : order) : result state :=
  '(symbol, side, r) ← row_of o;
  let st := mkState (printed st ++ [r]) (total_buy st) (total_sell st) (pairs st) in
  if bool_decide (side = Some "buy") then
    Ok (mkState (printed st) (total_buy st + r_notional r) (total_sell st)
          (append_buy (pairs st) (r_symbol r) (r_notional r)))
  else if bool_decide (side = Some "sell") then
    Ok (mkState (printed st) (total_buy st) (total_sell st + r_notional r)
          (append_sell (pairs st) (r_symbol r) (r_notional r)))
  else Ok st.

(** Lines 16-39: the state the loop reaches, and the exception that ended
    the script there, if any. *)
Definition run (orders : list order) : state * option exn :=
  for_each process_order init orders.

End Script.

(** Line 44. *)
Definition net_pnl (st : state) : Q := total_sell st - total_buy st.

(** Line 51: [sorted(pairs.items())]. *)
Definition sorted_items (pairs : gmap string (list Q * list Q))
  : list (string * (list Q * list Q)) :=
  sort_by fst (map_to_list pairs).

(** Lines 50-55 and 65: the total realized P&L. *)
Definition total_pnl (pairs : gmap string (list Q * list Q)) : Q :=
  fold_left (fun acc item => acc + (py_sum (snd (snd item)) - py_sum (fst (snd item))))
    (sorted_items pairs) 0.

(** Lines 57-62: the lines of the breakdown. *)
Definition line_of (trades : list Q * list Q) : option symbol_line :=
  let buy_sum := py_sum (fst trades) in
  let sell_sum := py_sum (snd trades) in
  let pnl := sell_sum - buy_sum in
  if bool_decide (0 < length (fst trades))%nat && bool_decide (0 < length (snd trades))%nat
  then Some (Closed buy_sum sell_sum pnl)
  else if bool_decide (0 < length (fst trades))%nat then Some (StillOpen buy_sum)
  else if bool_decide (0 < length (snd trades))%nat then Some (CloseOnly sell_sum)
  else None.

Definition breakdown (pairs : gmap string (list Q * list Q))
  : list (string * option symbol_line) :=
  map (fun item => (fst item, line_of (snd item))) (sorted_items pairs).

End Trades.

(** ** The totals of analyze_trades.py in binary64 *)

(** The numbers of the scripts are Python floats.  The properties of sums
    that depend on the order of the additions are decided on this second
    embedding of lines 30-39, 44 and 50-55, in which a float is a binary64
    number of the kernel and [+], [-] and [*] round as the interpreter's do. *)
Module Binary64.

Import PrimFloat.

(** What lines 17-21 keep of an order: its symbol, its side, and the two
    numbers [float] returned for its price and its quantity. *)
Record fill : Type := mkFill {
  symbol : string;
  side : string;
  price : float;
  qty : float
}.

(** Line 21, for an order with a price. *)
Definition notional (f : fill) : float := (price f * qty f)%float.

Record state : Type := mkState {
  total_buy : float;
  total_sell : float;
  pairs : gmap string (list float * list float)
}.

Definition init : state := mkState 0%float 0%float ∅.

(** Lines 30-39. *)
Definition process_fill (st : state) (f : fill) : state :=
  let old := default ([], []) (pairs st !! symbol f) in
  if bool_decide (side f = "buy") then
    mkState (total_buy st + notional f)%float (total_sell st)
      (<[symbol f := (fst old ++ [notional f], snd old)]> (pairs st))
  else if bool_decide (side f = "sell") then
    mkState (total_buy st) (total_sell st + notional f)%float
      (<[symbol f := (fst old, snd old ++ [notional f])]> (pairs st))
  else st.

Definition run (fills : list fill) : state := fold_left process_fill fills init.

(** [sum(l)], adding from the left as CPython does before version 3.12;
    later versions compensate the rounding errors of the additions, which
    makes no difference on a list of fewer than two numbers. *)
Definition py_sum (l : list float) : float := fold_left add l 0%float.

(** Line 44. *)
Definition net_pnl (st : state) : float := (total_sell st - total_buy st)%float.

(** Lines 50-55. *)
Definition total_pnl (pairs : gmap string (list float * list float)) : float :=
  fold_left (fun acc item => (acc + (py_sum (snd (snd item)) - py_sum (fst (snd item))))%float)
    (sort_by fst (map_to_list pairs)) 0%float.

(** [float] of a decimal literal with numerator [n] over a power of ten [d]:
    the binary64 number nearest to the quotient, which is what the correctly
    rounded division of the two integers gives when both are exact. *)
Definition decimal (n d : float) : float := (n / d)%float.

End Binary64.

(** ** bin/fetch_today_prices.py *)

(** One 1-minute bar of the market-data response: the keys the script reads. *)
Record bar : Type := mkBar {
  bar_o : field Q;
  bar_h : field Q;
  bar_l : field Q;
  bar_c : field Q;
  bar_v : field Q
}.

(** What the script uses of a response: the status code and the [bars] key
    of its JSON body. *)
Record response : Type := mkResponse {
  status_code : Z;
  bars : field (list bar)
}.

(** One printed line of the table (lines 64-68), before formatting. *)
Inductive price_line : Type :=
| Stats (n : nat) (open_price close_price change_pct range_pct avg_vol : Q)
| NoData
| HttpError (status : Z).

Module Prices.

(** A value used in arithmetic: [None] raises. *)
Definition num (x : option Q) : result Q :=
  match x with
  | Some q => Ok q
  | None => Raise TypeError
  end.

(** A list comprehension [[f(b) for b in l]]. *)
Fixpoint comprehension {A B : Type} (f : A -> result B) (l : list A) : result (list B) :=
  match l with
  | [] => Ok []
  | a :: l' =>
      b ← f a;
      bs ← comprehension f l';
      Ok (b :: bs)
  end.

(** Line 56: [b["h"] - b["l"]]. *)
Definition bar_range (b : bar) : result Q :=
  h ← getitem "h" (bar_h b);
  l ← getitem "l" (bar_l b);
  h ← num h;
  l ← num l;
  Ok (h - l).

(** Line 61: [b["v"]]. *)
Definition bar_volume (b : bar) : result (option Q) := getitem "v" (bar_v b).

(** [sum(l) / len(l)]. *)
Definition mean (l : list Q) : result Q :=
  py_div (py_sum l) (inject_Z (Z.of_nat (length l))).

(** Lines 43-68: the line printed for one symbol. *)
Definition report (r : response) : result price_line :=
  if bool_decide (status_code r = 200%Z) then
    match get_default (bars r) (Some []) with
    | Some (first_bar :: rest) =>
        let bs := first_bar :: rest in
        let last_bar := List.last bs first_bar in
        open_price ← getitem "o" (bar_o first_bar);
        close_price ← getitem "c" (bar_c last_bar);
        c ← num close_price;
        o ← num open_price;
        d ← py_div (c - o) o;
        let change_pct := d * 100 in
        ranges ← comprehension bar_range bs;
        avg_range ← mean ranges;
        d ← py_div avg_range c;
        let range_pct := d * 100 in
        volumes ← comprehension bar_volume bs;
        volumes ← comprehension num volumes;
        avg_vol ← mean volumes;
        Ok (Stats (length bs) o c change_pct range_pct avg_vol)
    | _ => Ok NoData
    end
  else Ok (HttpError (status_code r)).

End Prices.

(** ** Notions used to state the properties *)

(** The order has a fill timestamp (line 34 does not skip it). *)
Definition filled (o : order) : bool :=
  bool_decide (is_Some (get (o_filled_at o))).

(** Tokens joined by a separator: the inverse of [split]. *)
Fixpoint join (c : ascii) (tokens : list string) : string :=
  match tokens with
  | [] => EmptyString
  | [t] => t
  | t :: ts => (t ++ String c (join c ts))%string
  end.

(** A token holds no separator. *)
Definition delimiter_free (c : ascii) (t : string) : Prop := contains c t = false.

(** A list in ascending order of its keys. *)
Definition ascending {A : Type} (key : A -> string) (l : list A) : Prop :=
  StronglySorted (fun x y => String.leb (key x) (key y) = true) l.

(** The buy has the sell's symbol and a strictly earlier timestamp. *)
Definition eligible_for (sell : sell_fill) (buy : buy_fill) : Prop :=
  b_symbol buy = s_symbol sell /\ String.compare (b_time buy) (s_time sell) = Lt.

(** The instant of a fill timestamp, following the specification's words
    (a timestamp strictly earlier than another) rather than the code: the
    broker writes UTC instants as [YYYY-MM-DDThh:mm:ss], an optional
    fraction of a second of any length, and [Z].  The first nineteen
    characters have a fixed width, so their order as strings is the order of
    the seconds they name; the fraction is compared as a number. *)
Fixpoint drop_str (n : nat) (s : string) : string :=
  match n, s with
  | S n', String _ s' => drop_str n' s'
  | _, _ => s
  end.

Fixpoint fraction_of (digits : string) (acc : Z) (scale : positive) : option Q :=
  match digits with
  | EmptyString => None
  | String "Z" EmptyString => Some (acc # scale)
  | String a s' =>
      match digit_of a with
      | Some d => fraction_of s' (10 * acc + d)%Z (10 * scale)%positive
      | None => None
      end
  end.

Definition instant (t : string) : option (string * Q) :=
  match drop_str 19 t with
  | String "Z" EmptyString => Some (take_str 19 t, 0)
  | String "." (String "Z" EmptyString) => None
  | String "." digits =>
      match fraction_of digits 0 1 with
      | Some f => Some (take_str 19 t, f)
      | None => None
      end
  | _ => None
  end.

Definition chronologically_before (t1 t2 : string) : bool :=
  match instant t1, instant t2 with
  | Some (s1, f1), Some (s2, f2) =>
      String.ltb s1 s2 || (String.eqb s1 s2 && Qltb f1 f2)
  | _, _ => false
  end.

(** The buys of one symbol, in the order of the list. *)
Definition of_symbol (sym : option string) (l : list buy_fill) : list buy_fill :=
  filter (fun b => b_symbol b = sym) l.

(** Two pools that hold, for every symbol, the same buys in the same order. *)
Definition same_per_symbol (l l' : list buy_fill) : Prop :=
  forall sym, of_symbol sym l = of_symbol sym l'.

(** The trade of a matched pair (lines 75-86). *)
Definition trade_of (p : buy_fill * sell_fill) : trade :=
  let pnl := s_notional (snd p) - b_notional (fst p) in
  mkTrade (b_symbol (fst p)) (b_price (fst p)) (s_price (snd p)) pnl
    (pnl / b_notional (fst p) * 100) (take_str 10 (b_time (fst p))).

(** The statistics of a strategy, as [strategy_stats[s]] reads them. *)
Definition stats_at (strategy_stats : gmap string stats) (s : string) : stats :=
  default new_stats (strategy_stats !! s).

(** Every trade on file, over all strategies. *)
Definition all_trades (strategy_stats : gmap string stats) : list trade :=
  map_to_list strategy_stats ≫= (fun kv => trades (snd kv)).

Definition trades_of_symbol (sym : option string) (l : list trade) : nat :=
  length (filter (fun t => t_symbol t = sym) l).

Definition buys_of_symbol (sym : option string) (l : list buy_fill) : nat :=
  length (filter (fun b => b_symbol b = sym) l).

Definition sells_of_symbol (sym : option string) (l : list sell_fill) : nat :=
  length (filter (fun s => s_symbol s = sym) l).

(** What a completed computation returned. *)
Definition returned {A} (r : result A) : option A :=
  match r with
  | Ok a => Some a
  | Raise _ => None
  end.

(** The buy and sell fills that one order appends (lines 45 and 54), read off
    the loop body run on empty lists; nothing for an order that raises. *)
Definition buys_of (float_of_str : string -> option Q) (orders : list order)
  : list buy_fill :=
  orders ≫= (fun o =>
    match WinRates.classify_order float_of_str ([], []) o with
    | Ok (buys, _) => buys
    | Raise _ => []
    end).

Definition sells_of (float_of_str : string -> option Q) (orders : list order)
  : list sell_fill :=
  orders ≫= (fun o =>
    match WinRates.classify_order float_of_str ([], []) o with
    | Ok (_, sells) => sells
    | Raise _ => []
    end).

(** [sum] over a list in the other direction, for sums over a dictionary. *)
Definition sum_list (l : list Q) : Q := foldr Qplus 0 l.

(** The per-symbol buy totals and sell totals (lines 52-53), added up over
    all symbols. *)
Definition sum_buys (pairs : gmap string (list Q * list Q)) : Q :=
  sum_list ((fun kv => py_sum (fst (snd kv))) <$> map_to_list pairs).

Definition sum_sells (pairs : gmap string (list Q * list Q)) : Q :=
  sum_list ((fun kv => py_sum (snd (snd kv))) <$> map_to_list pairs).

(** The notionals of the printed rows of one side, added up. *)
Definition side_notionals (side : string) (rows : list row) : Q :=
  sum_list (r_notional <$> filter (fun r => r_side r = side) rows).

(** The totals and the dictionary agree, and the totals are those of the
    printed rows. *)
Definition consistent (st : Trades.state) : Prop :=
  sum_buys (Trades.pairs st) == Trades.total_buy st /\
  sum_sells (Trades.pairs st) == Trades.total_sell st /\
  Trades.total_buy st == side_notionals "buy" (Trades.printed st) /\
  Trades.total_sell st == side_notionals "sell" (Trades.printed st).

(** An entry of [strategy_stats] that agrees with its own list of trades:
    every trade counted once, as a win exactly when it is marked as one, and
    the P&L total that of the trades. *)
Definition agrees_with_trades (st : stats) : Prop :=
  (wins st + losses st)%nat = length (trades st) /\
  wins st = length (filter (fun t => WinRates.mark t = true) (trades st)) /\
  total_pnl st == sum_list (t_pnl <$> trades st).

(** The notionals of the printed rows of one symbol and side, in order. *)
Definition notionals_of (symbol side : string) (rows : list row) : list Q :=
  r_notional <$> filter (fun r => r_symbol r = symbol /\ r_side r = side) rows.

(** What the dictionary holds for a symbol, against the printed rows. *)
Definition tracks (st : Trades.state) (symbol : string) : Prop :=
  match Trades.pairs st !! symbol with
  | Some (buys, sells) =>
      buys = notionals_of symbol "buy" (Trades.printed st) /\
      sells = notionals_of symbol "sell" (Trades.printed st) /\
      (buys ≠ [] \/ sells ≠ [])
  | None =>
      notionals_of symbol "buy" (Trades.printed st) = [] /\
      notionals_of symbol "sell" (Trades.printed st) = []
  end.

(** A bar with all its keys present and numeric, as the data API sends it. *)
Record ohlcv : Type := mkOhlcv {
  px_open : Q;
  px_high : Q;
  px_low : Q;
  px_close : Q;
  volume : Q
}.

Definition to_bar (x : ohlcv) : bar :=
  mkBar (Val (px_open x)) (Val (px_high x)) (Val (px_low x)) (Val (px_close x))
    (Val (volume x)).

(** A response with status 200 whose body lists the given bars. *)
Definition ok_response (data : list ohlcv) : response :=
  mkResponse 200 (Val (to_bar <$> data)).

(** ** Sample orders *)

(** A filled order as the broker sends it: decimal strings for price and
    quantity. *)
Definition filled_order (symbol side filled_at price qty : string)
    (client_order_id : field string) : order :=
  mkOrder (Val symbol) (Val side) (Val (SStr qty)) (Val (SStr qty)) (Val (SStr price))
    (Val filled_at) (Val filled_at) client_order_id.

(** An order that was never filled and carries no fill keys at all. *)
Definition open_order (symbol side created_at qty : string) : order :=
  mkOrder (Val symbol) (Val side) (Val (SStr qty)) Absent Absent Absent (Val created_at)
    Absent.

(** A filled order whose object has no [filled_avg_price] key. *)
Definition unpriced_order (symbol side filled_at qty : string) : order :=
  mkOrder (Val symbol) (Val side) (Val (SStr qty)) (Val (SStr qty)) Absent
    (Val filled_at) (Val filled_at) Absent.

(** An object with nothing but a creation time. *)
Definition bare_order (created_at : string) : order :=
  mkOrder Absent Absent Absent Absent Absent Absent (Val created_at) Absent.

Definition T1 : string := "2026-01-13T10:00:00Z".
Definition T2 : string := "2026-01-13T11:00:00Z".
Definition T3 : string := "2026-01-14T09:30:00Z".

(** * Properties *)

(** ** The order on timestamps and the stable sort *)

Section StringOrder.

Lemma ascii_compare_lt_trans (a b c : ascii) :
  Ascii.compare a b = Lt -> Ascii.compare b c = Lt -> Ascii.compare a c = Lt.
Proof.
  unfold Ascii.compare. rewrite !N.compare_lt_iff. apply N.lt_trans.
Qed.

Lemma string_compare_lt_trans (s1 s2 s3 : string) :
  String.compare s1 s2 = Lt -> String.compare s2 s3 = Lt -> String.compare s1 s3 = Lt.
Proof.
  revert s2 s3. induction s1 as [|a s1 IH]; intros [|b s2] [|c s3]; simpl; try congruence.
  destruct (Ascii.compare a b) eqn:Hab; try congruence;
    destruct (Ascii.compare b c) eqn:Hbc; try congruence; intros H1 H2.
  - apply Ascii.compare_eq_iff in Hab, Hbc. subst.
    assert (Ascii.compare c c = Eq) as ->
        by (unfold Ascii.compare; apply N.compare_refl).
    eauto.
  - apply Ascii.compare_eq_iff in Hab. subst. now rewrite Hbc.
  - apply Ascii.compare_eq_iff in Hbc. subst. now rewrite Hab.
  - now rewrite (ascii_compare_lt_trans _ _ _ Hab Hbc).
Qed.

Lemma string_compare_refl (s : string) : String.compare s s = Eq.
Proof.
  induction s as [|a s IH]; simpl; [reflexivity|].
  assert (Ascii.compare a a = Eq) as -> by (unfold Ascii.compare; apply N.compare_refl).
  exact IH.
Qed.

Lemma string_ltb_leb (s1 s2 : string) : String.ltb s1 s2 = negb (String.leb s2 s1).
Proof.
  unfold String.ltb, String.leb. rewrite (String.compare_antisym s1 s2).
  now destruct (String.compare s2 s1).
Qed.

Lemma string_leb_refl (s : string) : String.leb s s = true.
Proof. unfold String.leb. now rewrite string_compare_refl. Qed.

Lemma string_leb_trans (s1 s2 s3 : string) :
  String.leb s1 s2 = true -> String.leb s2 s3 = true -> String.leb s1 s3 = true.
Proof.
  unfold String.leb.
  destruct (String.compare s1 s2) eqn:H12; try discriminate;
    destruct (String.compare s2 s3) eqn:H23; try discriminate; intros _ _.
  - apply String.compare_eq_iff in H12, H23. subst. now rewrite string_compare_refl.
  - apply String.compare_eq_iff in H12. subst. now rewrite H23.
  - apply String.compare_eq_iff in H23. subst. now rewrite H12.
  - now rewrite (string_compare_lt_trans _ _ _ H12 H23).
Qed.

End StringOrder.

Section Sorting.

Context {A : Type} (key : A -> string).

Lemma insert_by_perm (x : A) (l : list A) : insert_by key x l ≡ₚ x :: l.
Proof.
  induction l as [|y l IH]; simpl; [reflexivity|].
  destruct (String.leb (key x) (key y)); [reflexivity|].
  rewrite IH. apply Permutation_swap.
Qed.

Lemma sort_by_perm (l : list A) : sort_by key l ≡ₚ l.
Proof.
  induction l as [|x l IH]; simpl; [reflexivity|].
  rewrite insert_by_perm. now rewrite IH.
Qed.

(** Two insertions of distinct keys commute, whatever the list. *)
Lemma insert_by_comm (x y : A) (l : list A) :
  key x ≠ key y ->
  insert_by key x (insert_by key y l) = insert_by key y (insert_by key x l).
Proof.
  intros Hne.
  assert (Hxy : (String.leb (key x) (key y) = true /\ String.leb (key y) (key x) = false)
             \/ (String.leb (key x) (key y) = false /\ String.leb (key y) (key x) = true)).
  { destruct (String.leb (key x) (key y)) eqn:H1, (String.leb (key y) (key x)) eqn:H2;
      auto.
    - destruct Hne. now apply String.leb_antisym.
    - destruct (String.leb_total (key x) (key y)); congruence. }
  induction l as [|z l IH]; simpl.
  - now destruct Hxy as [[-> ->]|[-> ->]].
  - destruct (String.leb (key y) (key z)) eqn:Hyz, (String.leb (key x) (key z)) eqn:Hxz;
      simpl; rewrite ?Hyz, ?Hxz.
    + now destruct Hxy as [[-> ->]|[-> ->]]; simpl; rewrite ?Hyz, ?Hxz.
    + destruct Hxy as [[Hxy Hyx]|[Hxy Hyx]]; rewrite Hxy.
      * now rewrite (string_leb_trans _ _ _ Hxy Hyz) in Hxz.
      * simpl. now rewrite ?Hxz, ?Hyz.
    + destruct Hxy as [[Hxy Hyx]|[Hxy Hyx]]; rewrite Hyx.
      * simpl. now rewrite ?Hxz, ?Hyz.
      * now rewrite (string_leb_trans _ _ _ Hyx Hxz) in Hyz.
    + now rewrite IH.
Qed.

(** On lists with pairwise distinct keys the sort forgets the input order. *)
Lemma sort_by_perm_eq (l l' : list A) :
  l ≡ₚ l' -> NoDup (key <$> l) -> sort_by key l = sort_by key l'.
Proof.
  induction 1 as [|x l l' Hp IH|x y l|l l' l'' Hp1 IH1 Hp2 IH2]; intros Hnd; simpl.
  - reflexivity.
  - rewrite fmap_cons in Hnd. apply NoDup_cons in Hnd as [_ Hnd]. now rewrite IH.
  - rewrite !fmap_cons in Hnd. apply NoDup_cons in Hnd as [Hy _].
    apply insert_by_comm. intros Heq. apply Hy. rewrite Heq. left.
  - rewrite IH1 by assumption. apply IH2. now rewrite <- Hp1.
Qed.

End Sorting.

(** ** The loop combinator *)

Section ForEach.

Context {S A : Type} (body : S -> A -> result S).

Lemma for_each_app (s : S) (l1 l2 : list A) :
  for_each body s (l1 ++ l2) =
  match for_each body s l1 with
  | (s', None) => for_each body s' l2
  | (s', Some e) => (s', Some e)
  end.
Proof.
  revert s. induction l1 as [|a l1 IH]; intros s; simpl; [reflexivity|].
  destruct (body s a); [apply IH|reflexivity].
Qed.


(** An invariant of the body holds in the state the loop stops in. *)
Lemma for_each_invariant (I : S -> Prop) (s : S) (l : list A) :
  (forall s a s', I s -> body s a = Ok s' -> I s') ->
  I s -> I (fst (for_each body s l)).
Proof.
  intros Hstep. revert s. induction l as [|a l IH]; intros s Hs; simpl; [assumption|].
  destruct (body s a) eqn:Hb; [|assumption].
  apply IH. eapply Hstep; eassumption.
Qed.

End ForEach.

(** ** Strategy tags *)

Section Split.

Variable c : ascii.

Lemma split_delimiter_free (t : string) : delimiter_free c t -> split c t = [t].
Proof.
  unfold delimiter_free. induction t as [|a t IH]; simpl; [reflexivity|].
  intros H. apply orb_false_iff in H as [Ha Ht].
  rewrite Ha, (IH Ht). reflexivity.
Qed.

Lemma split_token (t rest : string) :
  delimiter_free c t -> split c (t ++ String c rest)%string = t :: split c rest.
Proof.
  unfold delimiter_free. induction t as [|a t IH]; simpl.
  - intros _. now rewrite Ascii.eqb_refl.
  - intros H. apply orb_false_iff in H as [Ha Ht].
    rewrite Ha, (IH Ht). reflexivity.
Qed.

Lemma contains_token (t rest : string) : contains c (t ++ String c rest)%string = true.
Proof.
  induction t as [|a t IH]; simpl.
  - now rewrite Ascii.eqb_refl.
  - rewrite IH. apply orb_true_r.
Qed.

Lemma split_join (t : string) (ts : list string) :
  Forall (delimiter_free c) (t :: ts) -> split c (join c (t :: ts)) = t :: ts.
Proof.
  revert t. induction ts as [|t' ts IH]; intros t H.
  - apply split_delimiter_free. now inversion H.
  - change (join c (t :: t' :: ts)) with (t ++ String c (join c (t' :: ts)))%string.
    inversion H as [|? ? Ht Hts]; subst.
    rewrite (split_token _ _ Ht), (IH _ Hts). reflexivity.
Qed.

End Split.

Section StrategyTags.

Variable float_of_str : string -> option Q.

Lemma strategy_of_tokens (tokens : list string) :
  Forall (delimiter_free "_") tokens ->
  WinRates.strategy_of (Val (join "_" tokens)) =
  Ok (match tokens with _ :: t :: _ => t | _ => "UNKNOWN" end).
Proof.
  intros H. unfold WinRates.strategy_of, get_default.
  destruct tokens as [|t [|t' ts]].
  - reflexivity.
  - simpl join. inversion H as [|? ? Ht _]; subst. unfold delimiter_free in Ht.
    rewrite Ht, andb_false_r. reflexivity.
  - change (join "_" (t :: t' :: ts)) with (t ++ String "_" (join "_" (t' :: ts)))%string.
    inversion H as [|? ? Ht Hts]; subst.
    rewrite contains_token, (split_token _ _ _ Ht), (split_join _ _ _ Hts).
    destruct t; reflexivity.
Qed.

Lemma record_trade_self (strategy_stats : gmap string stats) (s : string) (t : trade) :
  stats_at (WinRates.record_trade strategy_stats s t) s =
  mkStats (if Qltb 0 (t_pnl t) then wins (stats_at strategy_stats s) + 1
           else wins (stats_at strategy_stats s))
          (if Qltb 0 (t_pnl t) then losses (stats_at strategy_stats s)
           else losses (stats_at strategy_stats s) + 1)
          (total_pnl (stats_at strategy_stats s) + t_pnl t)
          (trades (stats_at strategy_stats s) ++ [t]).
Proof.
  unfold stats_at, WinRates.record_trade. rewrite lookup_insert_eq. simpl.
  now destruct (Qltb 0 (t_pnl t)).
Qed.

Lemma record_trade_other (strategy_stats : gmap string stats) (s s' : string) (t : trade) :
  s' ≠ s -> WinRates.record_trade strategy_stats s t !! s' = strategy_stats !! s'.
Proof. intros H. unfold WinRates.record_trade. now rewrite lookup_insert_ne. Qed.

End StrategyTags.

(** ** Choosing the buy of a sell *)

Section Matching.

Lemma eligible_spec (sell : sell_fill) (buy : buy_fill) :
  WinRates.eligible sell buy = true <-> eligible_for sell buy.
Proof.
  unfold WinRates.eligible, eligible_for, String.ltb.
  rewrite andb_true_iff, bool_decide_eq_true.
  destruct (String.compare (b_time buy) (s_time sell)); intuition congruence.
Qed.

Lemma eligible_false (sell : sell_fill) (buy : buy_fill) :
  WinRates.eligible sell buy = false <-> ~ eligible_for sell buy.
Proof.
  rewrite <- eligible_spec. destruct (WinRates.eligible sell buy); intuition congruence.
Qed.

Lemma find_buy_none (sell : sell_fill) (buys : list buy_fill) :
  Forall (fun b => ~ eligible_for sell b) buys -> WinRates.find_buy sell buys = None.
Proof.
  induction 1 as [|b buys Hb _ IH]; simpl; [reflexivity|].
  apply eligible_false in Hb. now rewrite Hb, IH.
Qed.

Lemma find_buy_first (sell : sell_fill) (pre post : list buy_fill) (b : buy_fill) :
  Forall (fun b => ~ eligible_for sell b) pre -> eligible_for sell b ->
  WinRates.find_buy sell (pre ++ b :: post) = Some (length pre, b).
Proof.
  intros Hpre Hb. induction Hpre as [|b' pre Hb' _ IH]; simpl.
  - apply eligible_spec in Hb. now rewrite Hb.
  - apply eligible_false in Hb'. now rewrite Hb', IH.
Qed.

Lemma find_buy_some (sell : sell_fill) (buys : list buy_fill) (i : nat) (b : buy_fill) :
  WinRates.find_buy sell buys = Some (i, b) ->
  exists pre post, buys = pre ++ b :: post /\ length pre = i /\
    Forall (fun b => ~ eligible_for sell b) pre /\ eligible_for sell b.
Proof.
  revert i. induction buys as [|b' buys IH]; intros i; simpl; [discriminate|].
  destruct (WinRates.eligible sell b') eqn:He.
  - intros [= <- <-]. exists [], buys. repeat split; try constructor;
      now apply eligible_spec in He as [? ?].
  - destruct (WinRates.find_buy sell buys) as [[j b'']|]; [|discriminate].
    intros [= <- <-]. destruct (IH j eq_refl) as (pre & post & -> & <- & Hpre & Hb).
    exists (b' :: pre), post. repeat split; try apply Hb.
    constructor; [now apply eligible_false|assumption].
Qed.

Lemma delete_middle {A} (pre post : list A) (x : A) :
  delete (length pre) (pre ++ x :: post) = pre ++ post.
Proof. induction pre as [|y pre IH]; simpl; [reflexivity|]. now rewrite <- IH. Qed.

Lemma make_trade_ok (sell : sell_fill) (buy : buy_fill) :
  ~ b_notional buy == 0 ->
  WinRates.make_trade sell buy =
  Ok (mkTrade (b_symbol buy) (b_price buy) (s_price sell)
        (s_notional sell - b_notional buy)
        ((s_notional sell - b_notional buy) / b_notional buy * 100)
        (take_str 10 (b_time buy))).
Proof.
  intros H. unfold WinRates.make_trade, py_div.
  destruct (Qeq_bool (b_notional buy) 0) eqn:Hz; [|reflexivity].
  now apply Qeq_bool_eq in Hz.
Qed.

Lemma make_trade_zero (sell : sell_fill) (buy : buy_fill) :
  b_notional buy == 0 -> WinRates.make_trade sell buy = Raise ZeroDivisionError.
Proof.
  intros H. unfold WinRates.make_trade, py_div.
  apply Qeq_eq_bool in H. now rewrite H.
Qed.

Lemma insert_by_ascending {A} (key : A -> string) (x : A) (l : list A) :
  ascending key l -> ascending key (insert_by key x l).
Proof.
  unfold ascending. induction 1 as [|y l Hl IH Hy]; simpl.
  - repeat constructor.
  - destruct (String.leb (key x) (key y)) eqn:Hxy.
    + constructor; [now constructor|]. constructor; [assumption|].
      eapply Forall_impl; [exact Hy|]. intros z Hz. simpl in Hz.
      eapply string_leb_trans; eassumption.
    + constructor; [assumption|].
      rewrite (insert_by_perm key x l). constructor; [|assumption].
      destruct (String.leb_total (key x) (key y)); congruence.
Qed.

Lemma sort_by_ascending {A} (key : A -> string) (l : list A) :
  ascending key (sort_by key l).
Proof.
  induction l as [|x l IH]; simpl; [constructor|]. now apply insert_by_ascending.
Qed.

Lemma delete_ascending {A} (key : A -> string) (i : nat) (l : list A) :
  ascending key l -> ascending key (delete i l).
Proof.
  unfold ascending. intros H. revert i. induction H as [|y l Hl IH Hy]; intros [|i]; simpl;
    try constructor; auto.
  apply Forall_forall. intros z Hz. rewrite Forall_forall in Hy. apply Hy.
  eapply elem_of_sublist; [exact Hz|apply sublist_delete].
Qed.

End Matching.

(** ** Counting trades against the fills they use *)

Section Counting.

Lemma for_each_processed {St A} (body : St -> A -> result St) (I : list A -> St -> Prop)
    (done : list A) (s : St) (l : list A) :
  (forall done s a s', I done s -> body s a = Ok s' -> I (done ++ [a]) s') ->
  I done s ->
  exists k, I (done ++ take k l) (fst (for_each body s l)).
Proof.
  intros Hstep. revert done s. induction l as [|a l IH]; intros done s Hs; simpl.
  - exists 0%nat. now rewrite app_nil_r.
  - destruct (body s a) eqn:Hb.
    + destruct (IH (done ++ [a]) a0 (Hstep _ _ _ _ Hs Hb)) as [k Hk].
      exists (S k). simpl. now rewrite <- app_assoc in Hk.
    + exists 0%nat. simpl. now rewrite app_nil_r.
Qed.

Lemma all_trades_record (strategy_stats : gmap string stats) (s : string) (t : trade) :
  all_trades (WinRates.record_trade strategy_stats s t) ≡ₚ t :: all_trades strategy_stats.
Proof.
  unfold all_trades, WinRates.record_trade.
  destruct (strategy_stats !! s) as [old|] eqn:Hs; simpl.
  - rewrite <- (insert_delete_eq strategy_stats).
    rewrite map_to_list_insert by apply lookup_delete_eq.
    rewrite <- (map_to_list_delete strategy_stats s old Hs).
    rewrite !bind_cons. simpl.
    destruct (Qltb 0 (t_pnl t)); simpl;
      rewrite <- app_assoc; simpl; symmetry; apply Permutation_middle.
  - rewrite map_to_list_insert by assumption. rewrite bind_cons. simpl.
    now destruct (Qltb 0 (t_pnl t)).
Qed.

Lemma trades_of_symbol_perm (sym : option string) (l l' : list trade) :
  l ≡ₚ l' -> trades_of_symbol sym l = trades_of_symbol sym l'.
Proof. intros H. unfold trades_of_symbol. now rewrite H. Qed.

Lemma trades_of_symbol_cons (sym : option string) (t : trade) (l : list trade) :
  trades_of_symbol sym (t :: l) =
  ((if decide (t_symbol t = sym) then 1 else 0) + trades_of_symbol sym l)%nat.
Proof.
  unfold trades_of_symbol. rewrite filter_cons. now destruct (decide (t_symbol t = sym)).
Qed.

Lemma buys_of_symbol_middle (sym : option string) (pre post : list buy_fill) (b : buy_fill) :
  buys_of_symbol sym (pre ++ b :: post) =
  ((if decide (b_symbol b = sym) then 1 else 0) + buys_of_symbol sym (pre ++ post))%nat.
Proof.
  unfold buys_of_symbol. rewrite !filter_app, filter_cons, !length_app.
  destruct (decide (b_symbol b = sym)); simpl; lia.
Qed.

Lemma sells_of_symbol_snoc (sym : option string) (l : list sell_fill) (s : sell_fill) :
  sells_of_symbol sym (l ++ [s]) =
  (sells_of_symbol sym l + (if decide (s_symbol s = sym) then 1 else 0))%nat.
Proof.
  unfold sells_of_symbol. rewrite filter_app, length_app, filter_cons, filter_nil.
  now destruct (decide (s_symbol s = sym)).
Qed.

Lemma sells_of_symbol_take (sym : option string) (k : nat) (l : list sell_fill) :
  (sells_of_symbol sym (take k l) <= sells_of_symbol sym l)%nat.
Proof.
  unfold sells_of_symbol. rewrite <- (take_drop k l) at 2.
  rewrite filter_app, length_app. lia.
Qed.

(** What one step of the matching loop does to the counts of a symbol. *)
Lemma match_sell_counts (sym : option string) (strategy_stats : gmap string stats)
    (pool : list buy_fill) (sell : sell_fill) (strategy_stats' : gmap string stats)
    (pool' : list buy_fill) :
  WinRates.match_sell (strategy_stats, pool) sell = Ok (strategy_stats', pool') ->
  exists d : nat,
    (d <= if decide (s_symbol sell = sym) then 1 else 0)%nat /\
    trades_of_symbol sym (all_trades strategy_stats') =
      (d + trades_of_symbol sym (all_trades strategy_stats))%nat /\
    buys_of_symbol sym pool = (d + buys_of_symbol sym pool')%nat.
Proof.
  unfold WinRates.match_sell.
  destruct (WinRates.find_buy sell pool) as [[i b]|] eqn:Hf.
  - destruct (find_buy_some _ _ _ _ Hf) as (pre & post & -> & <- & _ & Hsym & _).
    destruct (WinRates.make_trade sell b) as [t|] eqn:Ht; simpl; [|discriminate].
    intros [= <- <-].
    assert (t_symbol t = b_symbol b) as Hts.
    { unfold WinRates.make_trade in Ht. destruct (py_div _ _); simpl in Ht; [|discriminate].
      now injection Ht as <-. }
    exists (if decide (b_symbol b = sym) then 1 else 0)%nat.
    rewrite (trades_of_symbol_perm _ _ _ (all_trades_record _ _ _)).
    rewrite trades_of_symbol_cons, Hts, delete_middle, buys_of_symbol_middle, Hsym.
    repeat split; lia.
  - intros [= <- <-]. exists 0%nat. repeat split; lia.
Qed.

End Counting.

(** ** Classification *)

Ltac case_result :=
  repeat match goal with
    | |- context [match ?x with _ => _ end] => destruct x eqn:?; simpl
    end.

Section Classification.

Variable float_of_str : string -> option Q.

#[local] Abbreviation classify_order := (WinRates.classify_order float_of_str).
#[local] Abbreviation classify := (WinRates.classify float_of_str).
#[local] Abbreviation run := (WinRates.run float_of_str).

Lemma split_nonempty (c : ascii) (s : string) : exists t ts, split c s = t :: ts.
Proof.
  induction s as [|a s (t & ts & IH)]; simpl; [eauto|].
  destruct (Ascii.eqb a c); [eauto|]. rewrite IH. eauto.
Qed.

Lemma split_contains (c : ascii) (s : string) :
  contains c s = true -> exists t1 t2 ts, split c s = t1 :: t2 :: ts.
Proof.
  induction s as [|a s IH]; simpl; [discriminate|].
  destruct (Ascii.eqb a c); simpl.
  - intros _. destruct (split_nonempty c s) as (t & ts & ->). eauto.
  - intros H. destruct (IH H) as (t1 & t2 & ts & ->). eauto.
Qed.

(** The tag extraction never raises: [split] has a second token whenever the
    separator occurs. *)
Lemma strategy_of_total (client_order_id : field string) :
  exists t, WinRates.strategy_of client_order_id = Ok t.
Proof.
  unfold WinRates.strategy_of.
  destruct (get_default client_order_id (Some "")) as [s|]; [|eauto].
  destruct (negb (String.eqb s "")); simpl; [|eauto].
  destruct (contains "_" s) eqn:Hc; [|eauto].
  destruct (split_contains _ _ Hc) as (t1 & t2 & ts & ->). simpl. eauto.
Qed.

Lemma classify_order_unfilled (st : list buy_fill * list sell_fill) (o : order) :
  filled o = false -> classify_order st o = Ok st.
Proof.
  unfold filled, WinRates.classify_order. destruct st as [buys sells].
  destruct (get (o_filled_at o)); [|reflexivity].
  intros H. apply bool_decide_eq_false in H. destruct H. eauto.
Qed.

(** The loop body only appends to the two lists. *)
Lemma classify_order_frame (buys : list buy_fill) (sells : list sell_fill) (o : order) :
  classify_order (buys, sells) o =
  match classify_order ([], []) o with
  | Ok (buys', sells') => Ok (buys ++ buys', sells ++ sells')
  | Raise e => Raise e
  end.
Proof.
  unfold WinRates.classify_order, mbind, result_bind.
  case_result; rewrite ?app_nil_r; congruence.
Qed.

Lemma classify_from (buys : list buy_fill) (sells : list sell_fill) (orders : list order) :
  Forall (fun o => exists st, classify_order ([], []) o = Ok st) orders ->
  for_each classify_order (buys, sells) orders =
  ((buys ++ buys_of float_of_str orders, sells ++ sells_of float_of_str orders), None).
Proof.
  intros H. revert buys sells. induction H as [|o orders [[bs ss] Ho] _ IH]; intros buys sells.
  - simpl. now rewrite !app_nil_r.
  - cbn [for_each]. rewrite classify_order_frame, Ho, IH.
    unfold buys_of, sells_of. rewrite !bind_cons, Ho, !app_assoc. reflexivity.
Qed.

Lemma classify_raises (st : list buy_fill * list sell_fill) (orders : list order) :
  Exists (fun o => exists e, classify_order ([], []) o = Raise e) orders ->
  exists st' e, for_each classify_order st orders = (st', Some e).
Proof.
  intros H. revert st. induction H as [o orders [e Ho]|o orders _ IH]; intros [buys sells].
  - cbn [for_each]. rewrite classify_order_frame, Ho. eauto.
  - cbn [for_each]. destruct (classify_order (buys, sells) o); eauto.
Qed.

Lemma classify_dichotomy (orders : list order) :
  Forall (fun o => exists st, classify_order ([], []) o = Ok st) orders \/
  Exists (fun o => exists e, classify_order ([], []) o = Raise e) orders.
Proof.
  induction orders as [|o orders [IH|IH]]; [left; constructor| |right; now constructor].
  destruct (classify_order ([], []) o) eqn:Ho.
  - left. constructor; eauto.
  - right. constructor. eauto.
Qed.

End Classification.

(** ** Sums over the per-symbol dictionary *)

#[local] Arguments Qeq _ _ : simpl never.
#[local] Arguments Qplus _ _ : simpl never.
#[local] Arguments Qminus _ _ : simpl never.
#[local] Arguments Qmult _ _ : simpl never.
#[local] Arguments Qdiv _ _ : simpl never.
#[local] Arguments py_sum _ : simpl never.
#[local] Arguments sum_list _ : simpl never.

Section Sums.

Lemma py_sum_snoc (l : list Q) (x : Q) : py_sum (l ++ [x]) = py_sum l + x.
Proof. unfold py_sum. now rewrite fold_left_app. Qed.

Lemma sum_list_nil : sum_list [] = 0.
Proof. reflexivity. Qed.

Lemma sum_list_cons (x : Q) (l : list Q) : sum_list (x :: l) = x + sum_list l.
Proof. reflexivity. Qed.

Lemma sum_list_app (l l' : list Q) : sum_list (l ++ l') == sum_list l + sum_list l'.
Proof.
  induction l as [|x l IH]; [rewrite app_nil_l, sum_list_nil; ring|].
  rewrite <- app_comm_cons, !sum_list_cons, IH. ring.
Qed.

Lemma sum_list_perm (l l' : list Q) : l ≡ₚ l' -> sum_list l == sum_list l'.
Proof.
  induction 1 as [|x l l' _ IH|x y l|l l' l'' _ IH1 _ IH2].
  - reflexivity.
  - now rewrite !sum_list_cons, IH.
  - rewrite !sum_list_cons. ring.
  - now rewrite IH1.
Qed.

Lemma sum_list_minus {A} (f g : A -> Q) (l : list A) :
  sum_list ((fun a => f a - g a) <$> l) == sum_list (f <$> l) - sum_list (g <$> l).
Proof.
  induction l as [|a l IH]; [rewrite !fmap_nil, sum_list_nil; ring|].
  rewrite !fmap_cons, !sum_list_cons, IH. ring.
Qed.

Lemma fold_left_sum {A} (g : A -> Q) (l : list A) (a : Q) :
  fold_left (fun acc item => acc + g item) l a == a + sum_list (g <$> l).
Proof.
  revert a. induction l as [|x l IH]; intros a.
  - rewrite fmap_nil, sum_list_nil. simpl. ring.
  - rewrite fmap_cons, sum_list_cons. simpl. rewrite IH. ring.
Qed.

(** Writing one key of a dictionary changes a sum over it by the difference
    of the two entries. *)
Lemma sum_insert {V} (g : string * V -> Q) (m : gmap string V) (k : string) (v : V) :
  sum_list (g <$> map_to_list (<[k := v]> m)) +
    match m !! k with Some old => g (k, old) | None => 0 end
  == sum_list (g <$> map_to_list m) + g (k, v).
Proof.
  destruct (m !! k) as [old|] eqn:Hk.
  - rewrite (sum_list_perm _ (g <$> (k, v) :: map_to_list (delete k m))).
    2:{ apply fmap_Permutation. rewrite <- insert_delete_eq.
        apply map_to_list_insert, lookup_delete_eq. }
    rewrite (sum_list_perm (g <$> map_to_list m) (g <$> (k, old) :: map_to_list (delete k m))).
    2:{ apply fmap_Permutation. symmetry. now apply map_to_list_delete. }
    rewrite !fmap_cons, !sum_list_cons. ring.
  - rewrite (sum_list_perm _ (g <$> (k, v) :: map_to_list m)).
    2:{ apply fmap_Permutation. now apply map_to_list_insert. }
    rewrite fmap_cons, sum_list_cons. ring.
Qed.

Lemma sum_buys_append_buy (pairs : gmap string (list Q * list Q)) (sym : string) (n : Q) :
  sum_buys (Trades.append_buy pairs sym n) == sum_buys pairs + n.
Proof.
  unfold sum_buys, Trades.append_buy.
  pose proof (sum_insert (fun kv => py_sum (fst (snd kv))) pairs sym) as H.
  destruct (pairs !! sym) as [[bs ss]|]; simpl.
  - specialize (H (bs ++ [n], ss)). simpl in H. rewrite py_sum_snoc in H.
    apply (Qplus_inj_r _ _ (py_sum bs)). rewrite H. ring.
  - specialize (H ([n], [])). simpl in H. change (py_sum [n]) with (0 + n) in H.
    apply (Qplus_inj_r _ _ 0). rewrite H. ring.
Qed.

Lemma sum_sells_append_buy (pairs : gmap string (list Q * list Q)) (sym : string) (n : Q) :
  sum_sells (Trades.append_buy pairs sym n) == sum_sells pairs.
Proof.
  unfold sum_sells, Trades.append_buy.
  pose proof (sum_insert (fun kv => py_sum (snd (snd kv))) pairs sym) as H.
  destruct (pairs !! sym) as [[bs ss]|]; simpl.
  - specialize (H (bs ++ [n], ss)). simpl in H.
    apply (Qplus_inj_r _ _ (py_sum ss)). rewrite H. ring.
  - specialize (H ([n], [])). simpl in H. change (py_sum []) with 0 in H.
    apply (Qplus_inj_r _ _ 0). rewrite H. ring.
Qed.

Lemma sum_sells_append_sell (pairs : gmap string (list Q * list Q)) (sym : string) (n : Q) :
  sum_sells (Trades.append_sell pairs sym n) == sum_sells pairs + n.
Proof.
  unfold sum_sells, Trades.append_sell.
  pose proof (sum_insert (fun kv => py_sum (snd (snd kv))) pairs sym) as H.
  destruct (pairs !! sym) as [[bs ss]|]; simpl.
  - specialize (H (bs, ss ++ [n])). simpl in H. rewrite py_sum_snoc in H.
    apply (Qplus_inj_r _ _ (py_sum ss)). rewrite H. ring.
  - specialize (H ([], [n])). simpl in H. change (py_sum [n]) with (0 + n) in H.
    apply (Qplus_inj_r _ _ 0). rewrite H. ring.
Qed.

Lemma sum_buys_append_sell (pairs : gmap string (list Q * list Q)) (sym : string) (n : Q) :
  sum_buys (Trades.append_sell pairs sym n) == sum_buys pairs.
Proof.
  unfold sum_buys, Trades.append_sell.
  pose proof (sum_insert (fun kv => py_sum (fst (snd kv))) pairs sym) as H.
  destruct (pairs !! sym) as [[bs ss]|]; simpl.
  - specialize (H (bs, ss ++ [n])). simpl in H.
    apply (Qplus_inj_r _ _ (py_sum bs)). rewrite H. ring.
  - specialize (H ([], [n])). simpl in H. change (py_sum []) with 0 in H.
    apply (Qplus_inj_r _ _ 0). rewrite H. ring.
Qed.

Lemma total_pnl_sums (pairs : gmap string (list Q * list Q)) :
  Trades.total_pnl pairs == sum_sells pairs - sum_buys pairs.
Proof.
  unfold Trades.total_pnl, Trades.sorted_items, sum_sells, sum_buys.
  rewrite fold_left_sum.
  rewrite (sum_list_perm _ _ (fmap_Permutation _ _ _ (sort_by_perm fst (map_to_list pairs)))).
  rewrite (sum_list_minus (fun kv => py_sum (snd (snd kv))) (fun kv => py_sum (fst (snd kv)))).
  ring.
Qed.

Lemma side_notionals_snoc (side : string) (rows : list row) (r : row) :
  side_notionals side (rows ++ [r]) ==
  side_notionals side rows + (if decide (r_side r = side) then r_notional r else 0).
Proof.
  unfold side_notionals. rewrite filter_app, fmap_app, sum_list_app.
  rewrite filter_cons, filter_nil.
  destruct (decide (r_side r = side)); rewrite ?fmap_cons, ?fmap_nil, ?sum_list_cons, ?sum_list_nil; ring.
Qed.

End Sums.

(** ** The per-symbol script *)

Lemma lookup_append_buy (pairs : gmap string (list Q * list Q)) (k symbol : string) (n : Q) :
  Trades.append_buy pairs k n !! symbol =
  if decide (symbol = k)
  then Some (fst (default ([], []) (pairs !! k)) ++ [n], snd (default ([], []) (pairs !! k)))
  else pairs !! symbol.
Proof.
  unfold Trades.append_buy. destruct (default ([], []) (pairs !! k)) as [bs ss].
  destruct (decide (symbol = k)) as [->|Hne];
    [apply lookup_insert_eq|now apply lookup_insert_ne].
Qed.

Lemma lookup_append_sell (pairs : gmap string (list Q * list Q)) (k symbol : string) (n : Q) :
  Trades.append_sell pairs k n !! symbol =
  if decide (symbol = k)
  then Some (fst (default ([], []) (pairs !! k)), snd (default ([], []) (pairs !! k)) ++ [n])
  else pairs !! symbol.
Proof.
  unfold Trades.append_sell. destruct (default ([], []) (pairs !! k)) as [bs ss].
  destruct (decide (symbol = k)) as [->|Hne];
    [apply lookup_insert_eq|now apply lookup_insert_ne].
Qed.

Section TradesLoop.

Variable float_of_str : string -> option Q.

#[local] Abbreviation row_of := (Trades.row_of float_of_str).
#[local] Abbreviation process_order := (Trades.process_order float_of_str).

(** A printed row carries the symbol and the side of its order. *)
Lemma row_of_fields (o : order) (symbol side : option string) (r : row) :
  row_of o = Ok (symbol, side, r) ->
  o_symbol o = Val (r_symbol r) /\ o_side o = Val (r_side r) /\
  symbol = Some (r_symbol r) /\ side = Some (r_side r).
Proof.
  unfold Trades.row_of, mbind, result_bind, getitem, Trades.py_format.
  destruct (o_symbol o), (o_side o); simpl; try discriminate;
    case_result; try discriminate; intros [= <- <- <-]; auto.
Qed.

Lemma process_order_ok (st st' : Trades.state) (o : order) :
  process_order st o = Ok st' ->
  exists symbol side r,
    row_of o = Ok (symbol, side, r) /\
    Trades.printed st' = Trades.printed st ++ [r] /\
    ((r_side r = "buy" /\
      Trades.total_buy st' = Trades.total_buy st + r_notional r /\
      Trades.total_sell st' = Trades.total_sell st /\
      Trades.pairs st' = Trades.append_buy (Trades.pairs st) (r_symbol r) (r_notional r)) \/
     (r_side r = "sell" /\
      Trades.total_buy st' = Trades.total_buy st /\
      Trades.total_sell st' = Trades.total_sell st + r_notional r /\
      Trades.pairs st' = Trades.append_sell (Trades.pairs st) (r_symbol r) (r_notional r)) \/
     (r_side r ≠ "buy" /\ r_side r ≠ "sell" /\
      Trades.total_buy st' = Trades.total_buy st /\
      Trades.total_sell st' = Trades.total_sell st /\
      Trades.pairs st' = Trades.pairs st)).
Proof.
  unfold Trades.process_order. unfold mbind at 1. unfold result_bind.
  destruct (row_of o) as [[[symbol side] r]|] eqn:Hr; [|discriminate].
  destruct (row_of_fields _ _ _ _ Hr) as (_ & _ & -> & ->).
  exists (Some (r_symbol r)), (Some (r_side r)), r. split; [reflexivity|].
  destruct (decide (r_side r = "buy")) as [Hb|Hb].
  - rewrite bool_decide_eq_true_2 in H by congruence.
    injection H as <-. simpl. split; [reflexivity|]. left. auto.
  - rewrite bool_decide_eq_false_2 in H by congruence.
    destruct (decide (r_side r = "sell")) as [Hs|Hs].
    + rewrite bool_decide_eq_true_2 in H by congruence.
      injection H as <-. simpl. split; [reflexivity|]. right. left. auto.
    + rewrite bool_decide_eq_false_2 in H by congruence.
      injection H as <-. simpl. split; [reflexivity|]. right. right. auto.
Qed.

End TradesLoop.

(** * The reconciliation engine *)

Section Reconciliation.

(** The sell-matching loop as the code has it, where earlier and ascending
    are the order of the timestamps as Python compares strings: the sells
    are taken in ascending order against the buys in ascending order; a sell
    with no buy of its symbol and an earlier timestamp changes nothing;
    otherwise the first such buy of the pool is taken, and when its notional
    is not zero the trade of the pair is filed under the buy's strategy and
    the buy leaves the pool, which stays in ascending order. *)
Lemma earliest_eligible_buy_matching (buys : list buy_fill) (sells : list sell_fill) :
  WinRates.reconcile buys sells =
    for_each WinRates.match_sell (∅, sort_by b_time buys) (sort_by s_time sells) /\
  ascending s_time (sort_by s_time sells) /\ sort_by s_time sells ≡ₚ sells /\
  ascending b_time (sort_by b_time buys) /\ sort_by b_time buys ≡ₚ buys /\
  forall (strategy_stats : gmap string stats) (pool : list buy_fill) (sell : sell_fill),
    (Forall (fun b => ~ eligible_for sell b) pool ->
     WinRates.match_sell (strategy_stats, pool) sell = Ok (strategy_stats, pool)) /\
    (forall pre buy post,
       pool = pre ++ buy :: post ->
       Forall (fun b => ~ eligible_for sell b) pre ->
       eligible_for sell buy ->
       ~ b_notional buy == 0 ->
       WinRates.match_sell (strategy_stats, pool) sell =
         Ok (WinRates.record_trade strategy_stats (b_strategy buy)
               (mkTrade (b_symbol buy) (b_price buy) (s_price sell)
                  (s_notional sell - b_notional buy)
                  ((s_notional sell - b_notional buy) / b_notional buy * 100)
                  (take_str 10 (b_time buy))),
             pre ++ post) /\
       (ascending b_time pool -> ascending b_time (pre ++ post))).
Proof.
  split; [reflexivity|].
  split; [apply sort_by_ascending|]. split; [apply sort_by_perm|].
  split; [apply sort_by_ascending|]. split; [apply sort_by_perm|].
  intros strategy_stats pool sell. split.
  - intros Hnone. unfold WinRates.match_sell. now rewrite (find_buy_none _ _ Hnone).
  - intros pre buy post -> Hpre Hbuy Hnz. split.
    + unfold WinRates.match_sell.
      rewrite (find_buy_first _ _ _ _ Hpre Hbuy), (make_trade_ok _ _ Hnz). simpl.
      now rewrite delete_middle.
    + intros Hasc. rewrite <- (delete_middle pre post buy). now apply delete_ascending.
Qed.

Lemma make_trade_inv (sell : sell_fill) (buy : buy_fill) (t : trade) :
  WinRates.make_trade sell buy = Ok t -> t = trade_of (buy, sell).
Proof.
  unfold WinRates.make_trade, py_div.
  destruct (Qeq_bool (b_notional buy) 0); simpl; [discriminate|]. now intros [= <-].
Qed.

(** The pairs the loop has matched so far: their buys and the pool make up
    the buys received, their sells were taken from the sells processed, and
    the trades of every strategy are the trades of its pairs, in order. *)
Lemma reconcile_matches (buys : list buy_fill) (sells : list sell_fill) :
  let st := fst (WinRates.reconcile buys sells) in
  exists matches : list (buy_fill * sell_fill),
    (fst <$> matches) ++ snd st ≡ₚ buys /\
    (snd <$> matches) `sublist_of` sort_by s_time sells /\
    Forall (fun p => eligible_for (snd p) (fst p)) matches /\
    forall strategy,
      trades (stats_at (fst st) strategy) =
      trade_of <$> filter (fun p => b_strategy (fst p) = strategy) matches.
Proof.
  unfold WinRates.reconcile. cbv zeta.
  destruct (for_each_processed WinRates.match_sell
    (fun done st =>
       exists matches : list (buy_fill * sell_fill),
         (fst <$> matches) ++ snd st ≡ₚ buys /\
         (snd <$> matches) `sublist_of` done /\
         Forall (fun p => eligible_for (snd p) (fst p)) matches /\
         forall strategy,
           trades (stats_at (fst st) strategy) =
           trade_of <$> filter (fun p => b_strategy (fst p) = strategy) matches)
    [] (∅, sort_by b_time buys) (sort_by s_time sells)) as [k (matches & Hp & Hs & He & Ht)].
  - intros done [m pool] sell [m' pool'] (matches & Hp & Hs & He & Ht).
    cbn [fst snd] in *. unfold WinRates.match_sell.
    destruct (WinRates.find_buy sell pool) as [[i buy]|] eqn:Hf.
    + destruct (WinRates.make_trade sell buy) as [t|] eqn:Hm; simpl; [|discriminate].
      intros [= <- <-].
      destruct (find_buy_some _ _ _ _ Hf) as (pre & post & -> & Hlen & _ & Hel).
      apply make_trade_inv in Hm. subst t i.
      exists (matches ++ [(buy, sell)]). split; [|split; [|split]].
      * rewrite delete_middle, fmap_app, <- Hp, <- !app_assoc.
        apply Permutation_app_head. apply (Permutation_middle pre post buy).
      * rewrite fmap_app. now apply sublist_app.
      * apply Forall_app. split; [exact He|]. constructor; [exact Hel|constructor].
      * intros strategy. rewrite filter_app, fmap_app, filter_cons, filter_nil.
        cbn [fst]. destruct (decide (b_strategy buy = strategy)) as [<-|Hne].
        -- rewrite record_trade_self. cbn [trades]. now rewrite Ht.
        -- unfold stats_at. rewrite record_trade_other by congruence.
           rewrite app_nil_r. apply Ht.
    + intros [= <- <-]. exists matches.
      split; [exact Hp|]. split; [now apply sublist_inserts_r|]. now split.
  - exists []. cbn [fst snd]. split; [apply (sort_by_perm b_time)|].
    split; [constructor|]. split; [constructor|].
    intros strategy. unfold stats_at. now rewrite lookup_empty.
  - exists matches. split; [exact Hp|]. split; [|now split].
    etransitivity; [exact Hs|]. apply sublist_take.
Qed.

Lemma reconcile_counts (buys : list buy_fill) (sells : list sell_fill)
    (sym : option string) :
  let st := fst (WinRates.reconcile buys sells) in
  (trades_of_symbol sym (all_trades (fst st)) + buys_of_symbol sym (snd st)
     = buys_of_symbol sym buys)%nat /\
  (trades_of_symbol sym (all_trades (fst st))
     <= Nat.min (buys_of_symbol sym buys) (sells_of_symbol sym sells))%nat.
Proof.
  unfold WinRates.reconcile.
  destruct (for_each_processed WinRates.match_sell
    (fun done st =>
       (trades_of_symbol sym (all_trades (fst st)) + buys_of_symbol sym (snd st)
          = buys_of_symbol sym buys)%nat /\
       (trades_of_symbol sym (all_trades (fst st)) <= sells_of_symbol sym done)%nat)
    [] (∅, sort_by b_time buys) (sort_by s_time sells)) as [k [Hb Hs]].
  - intros done [strategy_stats pool] sell [strategy_stats' pool'] [Hb Hs] Hstep.
    destruct (match_sell_counts sym _ _ _ _ _ Hstep) as (d & Hd & Ht & Hp).
    cbn [fst snd] in *. rewrite sells_of_symbol_snoc.
    destruct (decide (s_symbol sell = sym)); split; lia.
  - cbn [fst snd]. unfold all_trades. rewrite map_to_list_empty.
    change (trades_of_symbol sym ([] ≫= (fun kv : string * stats => trades (snd kv))))
      with 0%nat.
    split; [|lia]. unfold buys_of_symbol. now rewrite (sort_by_perm b_time buys).
  - rewrite app_nil_l in Hs. cbv zeta. split; [exact Hb|].
    pose proof (sells_of_symbol_take sym k (sort_by s_time sells)) as Hk.
    assert (sells_of_symbol sym (sort_by s_time sells) = sells_of_symbol sym sells) as Hq
      by (unfold sells_of_symbol; now rewrite (sort_by_perm s_time sells)).
    lia.
Qed.

(** C5: in whatever state the loop stops, the trades on file are the trades
    of a list of matched pairs, strategy by strategy and in order; the buys
    of these pairs together with the buys left in the pool are exactly the
    buys received, each as often as it was received, so no buy fill stands
    in two trades; the sells of the pairs were taken, each once, from the
    sells in the order processed.  Hence for every symbol the trades and the
    buys left add up to the buys received, and the trades number at most the
    buys and at most the sells of that symbol. *)
Theorem matched_buy_never_reused (buys : list buy_fill) (sells : list sell_fill) :
  let st := fst (WinRates.reconcile buys sells) in
  (exists matches : list (buy_fill * sell_fill),
     (fst <$> matches) ++ snd st ≡ₚ buys /\
     (snd <$> matches) `sublist_of` sort_by s_time sells /\
     Forall (fun p => eligible_for (snd p) (fst p)) matches /\
     forall strategy,
       trades (stats_at (fst st) strategy) =
       trade_of <$> filter (fun p => b_strategy (fst p) = strategy) matches) /\
  forall sym,
    (trades_of_symbol sym (all_trades (fst st)) + buys_of_symbol sym (snd st)
       = buys_of_symbol sym buys)%nat /\
    (trades_of_symbol sym (all_trades (fst st))
       <= Nat.min (buys_of_symbol sym buys) (sells_of_symbol sym sells))%nat.
Proof.
  intros st. split; [apply reconcile_matches|]. intros sym. apply reconcile_counts.
Qed.

(** C7: filing a trade under a strategy adds one to that strategy's wins when
    the P&L is positive and one to its losses otherwise (so also when the P&L
    is zero), never to both, and leaves every other strategy alone; the loop
    files the trade of a matched pair, whose P&L is the sell's notional minus
    the buy's, exactly once. *)
Theorem win_loss_classification (strategy_stats : gmap string stats) (strategy : string)
    (t : trade) :
  let old := stats_at strategy_stats strategy in
  let new := stats_at (WinRates.record_trade strategy_stats strategy t) strategy in
  (0 < t_pnl t -> wins new = S (wins old) /\ losses new = losses old) /\
  (t_pnl t <= 0 -> wins new = wins old /\ losses new = S (losses old)) /\
  (t_pnl t == 0 -> wins new = wins old /\ losses new = S (losses old)) /\
  (forall s, s ≠ strategy ->
     WinRates.record_trade strategy_stats strategy t !! s = strategy_stats !! s) /\
  (forall pool sell strategy_stats' pool',
     WinRates.match_sell (strategy_stats, pool) sell = Ok (strategy_stats', pool') ->
     (strategy_stats' = strategy_stats /\ pool' = pool) \/
     exists buy t',
       buy ∈ pool /\ t_pnl t' = s_notional sell - b_notional buy /\
       strategy_stats' = WinRates.record_trade strategy_stats (b_strategy buy) t').
Proof.
  intros old new. subst old new. rewrite record_trade_self. simpl.
  assert (Hpos : 0 < t_pnl t -> Qltb 0 (t_pnl t) = true).
  { intros H. unfold Qltb. apply negb_true_iff.
    destruct (Qle_bool (t_pnl t) 0) eqn:E; [|reflexivity].
    apply Qle_bool_iff in E. exfalso. eapply Qlt_not_le; eassumption. }
  assert (Hneg : t_pnl t <= 0 -> Qltb 0 (t_pnl t) = false).
  { intros H. unfold Qltb. apply negb_false_iff. now apply Qle_bool_iff. }
  repeat split.
  - rewrite (Hpos H). lia.
  - now rewrite (Hpos H).
  - now rewrite (Hneg H).
  - rewrite (Hneg H). lia.
  - rewrite Hneg; [reflexivity|]. rewrite H. apply Qle_refl.
  - rewrite Hneg; [lia|]. rewrite H. apply Qle_refl.
  - intros s Hs. now apply record_trade_other.
  - intros pool sell strategy_stats' pool'. unfold WinRates.match_sell.
    destruct (WinRates.find_buy sell pool) as [[i buy]|] eqn:Hf.
    + destruct (WinRates.make_trade sell buy) as [t'|] eqn:Ht; simpl; [|discriminate].
      intros [= <- <-]. right. exists buy, t'.
      destruct (find_buy_some _ _ _ _ Hf) as (pre & post & -> & _).
      split; [apply elem_of_app; right; left|]. split; [|reflexivity].
      unfold WinRates.make_trade in Ht. destruct (py_div _ _); simpl in Ht; [|discriminate].
      now injection Ht as <-.
    + intros [= <- <-]. now left.
Qed.

End Reconciliation.

(** A sell whose first eligible buy has notional zero: the division of line 76
    raises, so no trade is formed and the buy is not removed. *)
Lemma zero_notional_buy_forms_no_trade :
  let buy := mkBuy (Some "AAPL") "UNKNOWN" 0 10 T1 0 in
  let sell := mkSell (Some "AAPL") 110 10 T2 1100 in
  eligible_for sell buy /\
  WinRates.match_sell (∅, [buy]) sell = Raise ZeroDivisionError.
Proof. repeat split. Qed.

(** The example of the specification: two buys at T1 < T2 and a sell at
    T3 > T2; the sell takes the buy at T1 and leaves the one at T2. *)
Lemma earliest_eligible_buy_matching_example :
  let b1 := mkBuy (Some "AAPL") "momentum" 100 10 T1 1000 in
  let b2 := mkBuy (Some "AAPL") "meanrev" 105 10 T2 1050 in
  let sell := mkSell (Some "AAPL") 110 10 T3 1100 in
  WinRates.match_sell (∅, [] ++ b1 :: [b2]) sell =
    Ok (WinRates.record_trade ∅ "momentum"
          (mkTrade (Some "AAPL") 100 110 (1100 - 1000) ((1100 - 1000) / 1000 * 100)
             (take_str 10 T1)),
        [] ++ [b2]) /\
  (ascending b_time ([] ++ b1 :: [b2]) -> ascending b_time ([] ++ [b2])).
Proof.
  intros b1 b2 sell.
  destruct (earliest_eligible_buy_matching [b1; b2] [sell]) as (_ & _ & _ & _ & _ & Hstep).
  apply (proj2 (Hstep ∅ ([] ++ b1 :: [b2]) sell) [] b1 [b2]).
  - reflexivity.
  - constructor.
  - split; reflexivity.
  - vm_compute. discriminate.
Defined.

(** C1, on the code: line 73 compares the fill timestamps as strings, and
    the broker writes fractions of a second with as many digits as needed.
    A buy filled half a second after the sell of its symbol is taken for an
    earlier one: a trade is formed from the pair and the buy leaves the
    pool, where the claim has the sell produce no trade. *)
Theorem buy_filled_after_sell_is_matched :
  let buy := filled_order "AAPL" "buy" "2026-01-13T10:00:00.5Z" "100" "10" Absent in
  let sell := filled_order "AAPL" "sell" "2026-01-13T10:00:00Z" "110" "10" Absent in
  let outcome :=
    (fun st => (t_date <$> trades (stats_at (fst st) "UNKNOWN"), length (snd st)))
      <$> returned (WinRates.run decimal_float [buy; sell]) in
  chronologically_before "2026-01-13T10:00:00Z" "2026-01-13T10:00:00.5Z" = true /\
  chronologically_before "2026-01-13T10:00:00.5Z" "2026-01-13T10:00:00Z" = false /\
  String.ltb "2026-01-13T10:00:00.5Z" "2026-01-13T10:00:00Z" = true /\
  outcome = Some (["2026-01-13"], 0%nat).
Proof. vm_compute. repeat split. Qed.

(** A winning trade, filed under a strategy that had none. *)
Lemma win_loss_classification_witness :
  let t := mkTrade (Some "AAPL") 100 110 100 10 "2026-01-13" in
  wins (stats_at (WinRates.record_trade ∅ "momentum" t) "momentum") = 1%nat /\
  losses (stats_at (WinRates.record_trade ∅ "momentum" t) "momentum") = 0%nat.
Proof.
  intros t.
  exact (proj1 (win_loss_classification ∅ "momentum" t) eq_refl).
Defined.

(** * Classification of orders *)

Section Orders.

Variable float_of_str : string -> option Q.

(** C9: the strategy tag of a client identifier made of tokens joined by
    underscores is its second token when there are at least two, and UNKNOWN
    otherwise, as it is when the identifier is missing or null; a buy fill
    carries the tag of its order, and a trade is filed under the tag of its
    buy. *)
Theorem strategy_tag_derivation :
  (forall tokens, Forall (delimiter_free "_") tokens ->
     WinRates.strategy_of (Val (join "_" tokens)) =
     Ok (match tokens with _ :: t :: _ => t | _ => "UNKNOWN" end)) /\
  WinRates.strategy_of Absent = Ok "UNKNOWN" /\
  WinRates.strategy_of Null = Ok "UNKNOWN" /\
  (forall o buys sells buys' sells',
     filled o = true -> o_side o = Val "buy" ->
     WinRates.classify_order float_of_str (buys, sells) o = Ok (buys', sells') ->
     exists b, buys' = buys ++ [b] /\ sells' = sells /\
       WinRates.strategy_of (o_client_order_id o) = Ok (b_strategy b)) /\
  (forall strategy_stats pool sell i buy strategy_stats' pool',
     WinRates.find_buy sell pool = Some (i, buy) ->
     WinRates.match_sell (strategy_stats, pool) sell = Ok (strategy_stats', pool') ->
     exists t, WinRates.make_trade sell buy = Ok t /\
       trades (stats_at strategy_stats' (b_strategy buy)) =
         trades (stats_at strategy_stats (b_strategy buy)) ++ [t] /\
       forall s, s ≠ b_strategy buy -> strategy_stats' !! s = strategy_stats !! s).
Proof.
  split; [exact strategy_of_tokens|].
  split; [reflexivity|]. split; [reflexivity|]. split.
  - intros o buys sells buys' sells' Hf Hside. unfold filled in Hf.
    apply bool_decide_eq_true in Hf as [t Ht].
    unfold WinRates.classify_order. rewrite Ht, Hside. simpl.
    destruct (WinRates.strategy_of (o_client_order_id o)) as [tag|]; simpl; [|discriminate].
    unfold mbind, result_bind. case_result; try discriminate.
    intros [= <- <-]. eexists. repeat split.
  - intros strategy_stats pool sell i buy strategy_stats' pool' Hf.
    unfold WinRates.match_sell. rewrite Hf.
    destruct (WinRates.make_trade sell buy) as [t|]; simpl; [|discriminate].
    intros [= <- <-]. exists t. split; [reflexivity|]. split.
    + rewrite record_trade_self. reflexivity.
    + intros s Hs. now apply record_trade_other.
Qed.

End Orders.

(** The tag of a three-token identifier. *)
Lemma strategy_tag_derivation_witness :
  WinRates.strategy_of (Val (join "_" ["lft"; "momentum"; "1768298400"])) = Ok "momentum".
Proof.
  apply (proj1 (strategy_tag_derivation decimal_float) ["lft"; "momentum"; "1768298400"]).
  repeat constructor.
Defined.

(** C2, on the code: a filled buy whose object has no price key gets notional
    zero through the defaults of lines 48-51, and the sell matched to it ends
    the script with ZeroDivisionError instead of a trade with an undefined
    percentage. *)
Theorem pnl_pct_zero_notional_raises :
  WinRates.run decimal_float
    [unpriced_order "AAPL" "buy" T1 "10";
     filled_order "AAPL" "sell" T2 "110" "10" Absent]
  = Raise ZeroDivisionError.
Proof. vm_compute. reflexivity. Qed.

(** ** The pool seen symbol by symbol *)

Section SymbolViews.

Lemma insert_by_filter {A} (key : A -> string) (P : A -> Prop) `{!∀ x, Decision (P x)}
    (x : A) (l : list A) :
  ascending key l ->
  filter P (insert_by key x l) =
  if decide (P x) then insert_by key x (filter P l) else filter P l.
Proof.
  unfold ascending. induction 1 as [|y l Hl IH Hy]; cbn [insert_by].
  - rewrite filter_cons, !filter_nil. now destruct (decide (P x)).
  - destruct (String.leb (key x) (key y)) eqn:Hxy.
    + rewrite (filter_cons P x). destruct (decide (P x)) as [Hx|Hx]; [|reflexivity].
      destruct (filter P (y :: l)) as [|z l'] eqn:Hf; [reflexivity|].
      cbn [insert_by].
      assert (z ∈ filter P (y :: l)) as Hz by (rewrite Hf; left).
      apply list_elem_of_filter in Hz as [_ Hz].
      assert (String.leb (key y) (key z) = true) as Hyz.
      { apply elem_of_cons in Hz as [->|Hz]; [apply string_leb_refl|].
        rewrite Forall_forall in Hy. now apply Hy. }
      now rewrite (string_leb_trans _ _ _ Hxy Hyz).
    + rewrite (filter_cons P y (insert_by key x l)), (filter_cons P y l), IH.
      destruct (decide (P y)), (decide (P x)); try reflexivity.
      cbn [insert_by]. now rewrite Hxy.
Qed.

(** The stable sort commutes with taking the elements of one kind. *)
Lemma sort_by_filter {A} (key : A -> string) (P : A -> Prop) `{!∀ x, Decision (P x)}
    (l : list A) :
  filter P (sort_by key l) = sort_by key (filter P l).
Proof.
  induction l as [|x l IH]; [reflexivity|]. cbn [sort_by].
  rewrite insert_by_filter by apply sort_by_ascending.
  rewrite (filter_cons P x). destruct (decide (P x)); [|exact IH].
  cbn [sort_by]. now rewrite IH.
Qed.

Lemma find_buy_none_inv (sell : sell_fill) (buys : list buy_fill) :
  WinRates.find_buy sell buys = None -> Forall (fun b => ~ eligible_for sell b) buys.
Proof.
  induction buys as [|b buys IH]; simpl; [constructor|].
  destruct (WinRates.eligible sell b) eqn:He; [discriminate|].
  destruct (WinRates.find_buy sell buys) as [[j b']|]; [discriminate|].
  intros _. constructor; [now apply eligible_false|now apply IH].
Qed.

(** A list splits in one way only at its first element of a kind. *)
Lemma first_split_unique {A} (P : A -> Prop) (pre pre' post post' : list A) (x x' : A) :
  pre ++ x :: post = pre' ++ x' :: post' ->
  Forall (fun a => ~ P a) pre -> P x -> Forall (fun a => ~ P a) pre' -> P x' ->
  pre = pre' /\ x = x' /\ post = post'.
Proof.
  intros Heq Hpre Hx. revert pre' Heq.
  induction Hpre as [|a pre Ha _ IH]; intros [|a' pre'] Heq Hpre' Hx'; simpl in Heq.
  - now injection Heq as -> ->.
  - injection Heq as -> _. apply Forall_cons in Hpre' as [Hn _]. contradiction.
  - injection Heq as -> _. contradiction.
  - injection Heq as -> Heq. apply Forall_cons in Hpre' as [_ Hpre'].
    destruct (IH pre' Heq Hpre' Hx') as (-> & -> & ->). auto.
Qed.

(** What the choice of a buy does to the pool, seen symbol by symbol. *)
Lemma find_buy_view (sell : sell_fill) (pool : list buy_fill) (i : nat) (b : buy_fill) :
  WinRates.find_buy sell pool = Some (i, b) ->
  exists pre post,
    of_symbol (s_symbol sell) pool = pre ++ b :: post /\
    Forall (fun b => ~ eligible_for sell b) pre /\ eligible_for sell b /\
    of_symbol (s_symbol sell) (delete i pool) = pre ++ post /\
    forall sym, sym ≠ s_symbol sell -> of_symbol sym (delete i pool) = of_symbol sym pool.
Proof.
  intros Hf. destruct (find_buy_some _ _ _ _ Hf) as (pre & post & -> & <- & Hpre & Hb).
  exists (of_symbol (s_symbol sell) pre), (of_symbol (s_symbol sell) post).
  rewrite delete_middle. unfold of_symbol. rewrite !filter_app.
  rewrite (filter_cons_True _ b) by apply Hb. split; [reflexivity|].
  split.
  { apply Forall_forall. intros a Ha. apply list_elem_of_filter in Ha as [_ Ha].
    rewrite Forall_forall in Hpre. now apply Hpre. }
  split; [exact Hb|]. split; [reflexivity|].
  intros sym Hne. rewrite !filter_app.
  rewrite (filter_cons_False _ b); [reflexivity|]. destruct Hb as [Hb _]. congruence.
Qed.

Lemma find_buy_none_view (sell : sell_fill) (pool : list buy_fill) :
  WinRates.find_buy sell pool = None ->
  Forall (fun b => ~ eligible_for sell b) (of_symbol (s_symbol sell) pool).
Proof.
  intros Hf. apply find_buy_none_inv in Hf. apply Forall_forall. intros a Ha.
  apply list_elem_of_filter in Ha as [_ Ha]. rewrite Forall_forall in Hf. now apply Hf.
Qed.

(** On pools that look the same symbol by symbol, a sell does the same. *)
Lemma match_sell_view (strategy_stats : gmap string stats) (pool pool' : list buy_fill)
    (sell : sell_fill) :
  same_per_symbol pool pool' ->
  match WinRates.match_sell (strategy_stats, pool) sell,
        WinRates.match_sell (strategy_stats, pool') sell with
  | Ok st, Ok st' => fst st = fst st' /\ same_per_symbol (snd st) (snd st')
  | Raise e, Raise e' => e = e'
  | _, _ => False
  end.
Proof.
  intros Hv. unfold WinRates.match_sell.
  destruct (WinRates.find_buy sell pool) as [[i b]|] eqn:Hf,
           (WinRates.find_buy sell pool') as [[i' b']|] eqn:Hf'.
  - destruct (find_buy_view _ _ _ _ Hf) as (pre & post & Hs & Hpre & Hb & Hd & Ho).
    destruct (find_buy_view _ _ _ _ Hf') as (pre' & post' & Hs' & Hpre' & Hb' & Hd' & Ho').
    rewrite (Hv (s_symbol sell)), Hs' in Hs.
    destruct (first_split_unique (eligible_for sell) _ _ _ _ _ _ Hs Hpre' Hb' Hpre Hb)
      as (-> & -> & ->).
    destruct (WinRates.make_trade sell b) as [t|]; simpl; [|reflexivity].
    split; [reflexivity|]. intros sym.
    destruct (decide (sym = s_symbol sell)) as [->|Hne]; [congruence|].
    now rewrite Ho, Ho', Hv by assumption.
  - exfalso. destruct (find_buy_view _ _ _ _ Hf) as (pre & post & Hs & _ & Hb & _).
    apply find_buy_none_view in Hf'. rewrite <- (Hv (s_symbol sell)), Hs in Hf'.
    apply Forall_app in Hf' as [_ Hf']. apply Forall_cons in Hf' as [Hn _]. contradiction.
  - exfalso. destruct (find_buy_view _ _ _ _ Hf') as (pre & post & Hs & _ & Hb & _).
    apply find_buy_none_view in Hf. rewrite (Hv (s_symbol sell)), Hs in Hf.
    apply Forall_app in Hf as [_ Hf]. apply Forall_cons in Hf as [Hn _]. contradiction.
  - simpl. auto.
Qed.

(** Two runs of a loop from related states, whose body keeps the relation
    and raises alike, stop in related states, both completed or both with
    the same exception. *)
Lemma for_each_related {St A} (body : St -> A -> result St) (R : St -> St -> Prop)
    (s s' : St) (l : list A) :
  (forall s s' a, R s s' ->
     match body s a, body s' a with
     | Ok t, Ok t' => R t t'
     | Raise e, Raise e' => e = e'
     | _, _ => False
     end) ->
  R s s' ->
  R (fst (for_each body s l)) (fst (for_each body s' l)) /\
  snd (for_each body s l) = snd (for_each body s' l).
Proof.
  intros Hstep. revert s s'. induction l as [|a l IH]; intros s s' HR; simpl; [auto|].
  specialize (Hstep s s' a HR).
  destruct (body s a), (body s' a); try contradiction; [now apply IH|].
  subst. auto.
Qed.

Lemma NoDup_times_of_symbol (sym : option string) (buys : list buy_fill) :
  NoDup ((fun b => (b_symbol b, b_time b)) <$> buys) ->
  NoDup (b_time <$> of_symbol sym buys).
Proof.
  unfold of_symbol. induction buys as [|b buys IH]; [constructor|].
  rewrite fmap_cons, NoDup_cons. intros [Hb Hnd]. rewrite filter_cons.
  destruct (decide (b_symbol b = sym)) as [Hs|Hs]; [|now apply IH].
  rewrite fmap_cons. apply NoDup_cons. split; [|now apply IH].
  intros Hin. apply Hb. apply list_elem_of_fmap in Hin as (b' & Ht & Hin).
  apply list_elem_of_filter in Hin as [Hs' Hin].
  apply list_elem_of_fmap. exists b'. split; [congruence|exact Hin].
Qed.

(** When no two buys of one symbol share a timestamp, the sorted pool looks
    the same symbol by symbol whatever the order the buys came in. *)
Lemma sorted_pool_view (buys buys' : list buy_fill) :
  buys ≡ₚ buys' ->
  NoDup ((fun b => (b_symbol b, b_time b)) <$> buys) ->
  same_per_symbol (sort_by b_time buys) (sort_by b_time buys').
Proof.
  intros Hp Hnd sym. unfold of_symbol. rewrite !sort_by_filter.
  apply sort_by_perm_eq; [now rewrite Hp|]. now apply NoDup_times_of_symbol.
Qed.

End SymbolViews.

(** * Filtering, malformed records and permutations of the batch *)

Section Batches.

Variable float_of_str : string -> option Q.

Lemma classify_skip (pre post : list order) (o : order) :
  filled o = false ->
  WinRates.classify float_of_str (pre ++ o :: post) =
  WinRates.classify float_of_str (pre ++ post).
Proof.
  intros Ho. unfold WinRates.classify. rewrite !for_each_app.
  destruct (for_each (WinRates.classify_order float_of_str) ([], []) pre) as [st [e|]];
    [reflexivity|].
  cbn [for_each]. now rewrite (classify_order_unfilled float_of_str st o Ho).
Qed.

Lemma classify_stops (pre post : list order) (o : order) (e : exn) :
  (forall st, WinRates.classify_order float_of_str st o = Raise e) ->
  WinRates.classify float_of_str (pre ++ o :: post) =
  (fst (WinRates.classify float_of_str pre),
   Some (match snd (WinRates.classify float_of_str pre) with
         | Some e' => e'
         | None => e
         end)).
Proof.
  intros Ho. unfold WinRates.classify. rewrite for_each_app.
  destruct (for_each (WinRates.classify_order float_of_str) ([], []) pre) as [st [e'|]];
    [reflexivity|].
  cbn [for_each]. now rewrite Ho.
Qed.

Lemma run_of_classify (orders orders' : list order) :
  WinRates.classify float_of_str orders = WinRates.classify float_of_str orders' ->
  WinRates.run float_of_str orders = WinRates.run float_of_str orders'.
Proof. intros H. unfold WinRates.run. now rewrite H. Qed.

Lemma trades_run_stops (pre post : list order) (o : order) (e : exn) :
  (forall st, Trades.process_order float_of_str st o = Raise e) ->
  Trades.run float_of_str (pre ++ o :: post) =
  (fst (Trades.run float_of_str pre),
   Some (match snd (Trades.run float_of_str pre) with
         | Some e' => e'
         | None => e
         end)).
Proof.
  intros Ho. unfold Trades.run. rewrite for_each_app.
  destruct (for_each (Trades.process_order float_of_str) Trades.init pre) as [st [e'|]];
    [reflexivity|].
  cbn [for_each]. now rewrite Ho.
Qed.


(** C4, as the code has it: in the per-symbol script an order without symbol
    or side stops the loop with KeyError at that order, after the rows of the
    orders before it were printed; in the win-rate script an order with a
    fill timestamp and no side, or with side buy or sell and no symbol, ends
    the run with KeyError before any report, while an order without fill
    timestamp is skipped whatever it lacks. *)
Theorem missing_side_or_symbol (pre post : list order) (o : order) :
  (o_symbol o = Absent \/ o_side o = Absent ->
   Trades.run float_of_str (pre ++ o :: post) =
   (fst (Trades.run float_of_str pre),
    Some (match snd (Trades.run float_of_str pre) with
          | Some e => e
          | None => KeyError (match o_symbol o with Absent => "symbol" | _ => "side" end)
          end))) /\
  (filled o = true -> o_side o = Absent ->
   WinRates.run float_of_str (pre ++ o :: post) =
   Raise (match snd (WinRates.classify float_of_str pre) with
          | Some e => e
          | None => KeyError "side"
          end)) /\
  (filled o = true -> o_side o = Val "buy" \/ o_side o = Val "sell" ->
   o_symbol o = Absent ->
   WinRates.run float_of_str (pre ++ o :: post) =
   Raise (match snd (WinRates.classify float_of_str pre) with
          | Some e => e
          | None => KeyError "symbol"
          end)) /\
  (filled o = false ->
   WinRates.run float_of_str (pre ++ o :: post) = WinRates.run float_of_str (pre ++ post)).
Proof.
  repeat split.
  - intros H. apply trades_run_stops. intros st.
    unfold Trades.process_order, Trades.row_of, mbind, result_bind, getitem.
    destruct (o_symbol o); [reflexivity| |]; destruct H as [H|H]; try discriminate;
      now rewrite H.
  - intros Hf Hs. unfold WinRates.run.
    rewrite (classify_stops pre post o (KeyError "side"));
      [destruct (WinRates.classify float_of_str pre) as [[bs ss] oe]; reflexivity|].
    intros [buys sells]. unfold WinRates.classify_order, filled in *.
    apply bool_decide_eq_true in Hf as [t ->]. now rewrite Hs.
  - intros Hf Hs Hsym. unfold WinRates.run.
    rewrite (classify_stops pre post o (KeyError "symbol"));
      [destruct (WinRates.classify float_of_str pre) as [[bs ss] oe]; reflexivity|].
    intros [buys sells]. unfold WinRates.classify_order, filled in *.
    apply bool_decide_eq_true in Hf as [t ->].
    destruct Hs as [-> | ->]; simpl; rewrite Hsym.
    + destruct (strategy_of_total (o_client_order_id o)) as [tag ->]. reflexivity.
    + reflexivity.
  - intros Hf. apply run_of_classify. now apply classify_skip.
Qed.

(** C6, as the code has it: when no two buy fills of one symbol share a
    timestamp and no two sell fills share one, every reordering of the batch
    gives the same statistics, with the same trades in the same order under
    every strategy (or, in both orders, no report). *)
Theorem matching_permutation_invariant (orders orders' : list order) :
  orders ≡ₚ orders' ->
  NoDup ((fun b => (b_symbol b, b_time b)) <$> buys_of float_of_str orders) ->
  NoDup (s_time <$> sells_of float_of_str orders) ->
  fst <$> returned (WinRates.run float_of_str orders') =
  fst <$> returned (WinRates.run float_of_str orders).
Proof.
  intros Hp Hb Hs. unfold WinRates.run, WinRates.classify.
  destruct (classify_dichotomy float_of_str orders) as [Hok|Hbad].
  - rewrite (classify_from float_of_str [] [] orders Hok).
    rewrite (classify_from float_of_str [] [] orders') by now rewrite <- Hp.
    rewrite !app_nil_l. unfold WinRates.reconcile.
    assert (buys_of float_of_str orders ≡ₚ buys_of float_of_str orders') as Hpb
      by (unfold buys_of; now rewrite Hp).
    assert (sells_of float_of_str orders ≡ₚ sells_of float_of_str orders') as Hps
      by (unfold sells_of; now rewrite Hp).
    rewrite (sort_by_perm_eq s_time _ _ Hps Hs).
    destruct (for_each_related WinRates.match_sell
                (fun st st' => fst st = fst st' /\ same_per_symbol (snd st) (snd st'))
                (∅, sort_by b_time (buys_of float_of_str orders))
                (∅, sort_by b_time (buys_of float_of_str orders'))
                (sort_by s_time (sells_of float_of_str orders'))) as [[Hm _] He].
    { intros [m pool] [m' pool'] sell [Hm Hv]. cbn [fst snd] in *. subst m'.
      now apply match_sell_view. }
    { split; [reflexivity|]. now apply sorted_pool_view. }
    destruct (for_each WinRates.match_sell
                (∅, sort_by b_time (buys_of float_of_str orders)) _) as [[m1 p1] e1],
             (for_each WinRates.match_sell
                (∅, sort_by b_time (buys_of float_of_str orders')) _) as [[m2 p2] e2].
    cbn [fst snd] in *. subst m2 e2. now destruct e1.
  - destruct (classify_raises float_of_str ([], []) orders Hbad) as (st & e & ->).
    rewrite Hp in Hbad.
    destruct (classify_raises float_of_str ([], []) orders' Hbad) as (st' & e' & ->).
    destruct st, st'. reflexivity.
Qed.

End Batches.



(** An object with neither side nor symbol nor fill timestamp passes through
    the win-rate script without any error (against C4 as stated). *)
Lemma record_without_side_skipped_silently :
  let o := bare_order T1 in
  o_side o = Absent /\ o_symbol o = Absent /\
  WinRates.run decimal_float [o; filled_order "AAPL" "sell" T2 "110" "10" Absent]
  = Ok (∅, []).
Proof. vm_compute. repeat split. Qed.

Lemma missing_side_or_symbol_witness :
  let good := filled_order "AAPL" "buy" T1 "100" "10" Absent in
  let bad := mkOrder (Val "AAPL") Absent Absent Absent Absent (Val T2) Absent Absent in
  Trades.run decimal_float ([good] ++ bad :: [good]) =
  (fst (Trades.run decimal_float [good]),
   Some (match snd (Trades.run decimal_float [good]) with
         | Some e => e
         | None => KeyError (match o_symbol bad with Absent => "symbol" | _ => "side" end)
         end)).
Proof.
  intros good bad.
  apply (proj1 (missing_side_or_symbol decimal_float [good] [good] bad)).
  right. reflexivity.
Defined.

(** Two buys of one symbol filled at the same instant: the sell takes
    whichever came first in the batch, so reordering the batch changes the
    trade, its strategy and its outcome (against C6 as stated).  Two sells
    filled at the same instant, of different symbols: they are processed in
    batch order, so reordering the batch changes the order of the trades
    under the strategy their buys share. *)
Lemma equal_timestamps_order_dependent :
  let b1 := filled_order "AAPL" "buy" T1 "100" "10" (Val "lft_momentum_1") in
  let b2 := filled_order "AAPL" "buy" T1 "90" "10" (Val "lft_meanrev_2") in
  let s := filled_order "AAPL" "sell" T2 "95" "10" Absent in
  let outcome := fun orders =>
    (fun st => (wins (stats_at (fst st) "meanrev"), losses (stats_at (fst st) "momentum")))
      <$> returned (WinRates.run decimal_float orders) in
  let b3 := filled_order "MSFT" "buy" T1 "50" "10" (Val "lft_momentum_3") in
  let s1 := filled_order "AAPL" "sell" T3 "95" "10" Absent in
  let s3 := filled_order "MSFT" "sell" T3 "55" "10" Absent in
  let sequence := fun orders =>
    (fun st => t_symbol <$> trades (stats_at (fst st) "momentum"))
      <$> returned (WinRates.run decimal_float orders) in
  [b1; b2; s] ≡ₚ [b2; b1; s] /\
  outcome [b1; b2; s] = Some (0%nat, 1%nat) /\
  outcome [b2; b1; s] = Some (1%nat, 0%nat) /\
  [b1; b3; s1; s3] ≡ₚ [b1; b3; s3; s1] /\
  sequence [b1; b3; s1; s3] = Some [Some "AAPL"; Some "MSFT"] /\
  sequence [b1; b3; s3; s1] = Some [Some "MSFT"; Some "AAPL"].
Proof.
  split; [apply perm_swap|]. split; [vm_compute; reflexivity|].
  split; [vm_compute; reflexivity|].
  split; [do 2 apply perm_skip; apply perm_swap|].
  vm_compute. split; reflexivity.
Qed.

(** Two buys of different symbols filled at the same instant, and a third
    of the first symbol filled later. *)
Lemma matching_permutation_invariant_witness :
  let b1 := filled_order "AAPL" "buy" T1 "100" "10" (Val "lft_momentum_1") in
  let b2 := filled_order "MSFT" "buy" T1 "90" "10" (Val "lft_meanrev_2") in
  let b3 := filled_order "AAPL" "buy" T2 "101" "10" (Val "lft_meanrev_3") in
  let s := filled_order "AAPL" "sell" T3 "95" "10" Absent in
  fst <$> returned (WinRates.run decimal_float [b3; b2; b1; s]) =
  fst <$> returned (WinRates.run decimal_float [b1; b2; b3; s]).
Proof.
  intros b1 b2 b3 s.
  apply (matching_permutation_invariant decimal_float [b1; b2; b3; s] [b3; b2; b1; s]).
  - exact (Permutation_app_tail [s] (Permutation_rev [b1; b2; b3])).
  - apply (bool_decide_unpack _). vm_compute. exact I.
  - apply (bool_decide_unpack _). vm_compute. exact I.
Defined.

(** * Per-symbol aggregation *)

Section Aggregation.

Variable float_of_str : string -> option Q.

Lemma process_order_consistent (st st' : Trades.state) (o : order) :
  consistent st -> Trades.process_order float_of_str st o = Ok st' -> consistent st'.
Proof.
  intros (Hb & Hs & Hrb & Hrs) Hstep.
  destruct (process_order_ok float_of_str _ _ _ Hstep)
    as (symbol & side & r & _ & Hrows & Hcase).
  unfold consistent. rewrite Hrows, !side_notionals_snoc.
  destruct Hcase as [(Hside & -> & -> & ->)|[(Hside & -> & -> & ->)|(Hnb & Hns & -> & -> & ->)]].
  - rewrite sum_buys_append_buy, sum_sells_append_buy, Hside.
    rewrite decide_True by reflexivity. rewrite decide_False by discriminate.
    rewrite Hb, Hs, <- Hrb, <- Hrs. repeat split; ring.
  - rewrite sum_buys_append_sell, sum_sells_append_sell, Hside.
    rewrite decide_False by discriminate. rewrite decide_True by reflexivity.
    rewrite Hb, Hs, <- Hrb, <- Hrs. repeat split; ring.
  - rewrite decide_False by assumption. rewrite decide_False by assumption.
    rewrite Hb, Hs, <- Hrb, <- Hrs. repeat split; ring.
Qed.

Lemma completed_rows (st : Trades.state) (orders : list order) :
  snd (for_each (Trades.process_order float_of_str) st orders) = None ->
  exists rows,
    Trades.printed (fst (for_each (Trades.process_order float_of_str) st orders)) =
      Trades.printed st ++ rows /\
    Forall2 (fun o r => exists symbol side, Trades.row_of float_of_str o = Ok (symbol, side, r))
      orders rows.
Proof.
  revert st. induction orders as [|o orders IH]; intros st; cbn [for_each].
  - intros _. exists []. split; [now rewrite app_nil_r|constructor].
  - destruct (Trades.process_order float_of_str st o) as [st'|] eqn:Hstep; [|discriminate].
    intros Hdone. destruct (IH st' Hdone) as (rows & Hrows & Hall).
    destruct (process_order_ok float_of_str _ _ _ Hstep)
      as (symbol & side & r & Hr & Hpr & _).
    exists (r :: rows). split.
    + rewrite Hrows, Hpr, <- app_assoc. reflexivity.
    + constructor; eauto.
Qed.

(** The totals over exact numbers: the per-symbol buy totals add up to the
    total bought and the per-symbol sell totals to the total sold, which are
    the sums of the notionals of the buy rows and of the sell rows; the
    realized P&L added up over the symbols is the total sold minus the total
    bought; and when the loop completes, the rows are those of the orders of
    the batch, one each and in order. *)
Lemma run_totals (orders : list order) :
  let st := fst (Trades.run float_of_str orders) in
  sum_buys (Trades.pairs st) == Trades.total_buy st /\
  sum_sells (Trades.pairs st) == Trades.total_sell st /\
  Trades.total_buy st == side_notionals "buy" (Trades.printed st) /\
  Trades.total_sell st == side_notionals "sell" (Trades.printed st) /\
  Trades.total_pnl (Trades.pairs st) == Trades.net_pnl st /\
  (snd (Trades.run float_of_str orders) = None ->
   Forall2 (fun o r => exists symbol side, Trades.row_of float_of_str o = Ok (symbol, side, r))
     orders (Trades.printed st)).
Proof.
  intros st.
  assert (consistent st) as (Hb & Hs & Hrb & Hrs).
  { subst st. unfold Trades.run. apply for_each_invariant.
    - intros s a s' Hc Hstep. eapply process_order_consistent; eassumption.
    - repeat split; reflexivity. }
  repeat split; try assumption.
  - rewrite total_pnl_sums, Hb, Hs. reflexivity.
  - intros Hdone. destruct (completed_rows Trades.init orders Hdone) as (rows & Hrows & Hall).
    subst st. unfold Trades.run. rewrite Hrows. exact Hall.
Qed.

(** C10: an order whose side is a string other than buy and sell is printed
    like any other (or stops the loop if one of its fields does not format)
    and changes neither total nor the per-symbol dictionary. *)
Theorem unknown_side_row_only (st : Trades.state) (o : order) (side : string) :
  o_side o = Val side -> side ≠ "buy" -> side ≠ "sell" ->
  Trades.process_order float_of_str st o =
  match Trades.row_of float_of_str o with
  | Ok (_, _, r) =>
      Ok (Trades.mkState (Trades.printed st ++ [r]) (Trades.total_buy st)
            (Trades.total_sell st) (Trades.pairs st))
  | Raise e => Raise e
  end.
Proof.
  intros Hside Hb Hs. unfold Trades.process_order. unfold mbind at 1. unfold result_bind.
  destruct (Trades.row_of float_of_str o) as [[[symbol sd] r]|] eqn:Hr; [|reflexivity].
  destruct (row_of_fields float_of_str _ _ _ _ Hr) as (_ & Ho & _ & ->).
  rewrite Hside in Ho. injection Ho as <-.
  rewrite !bool_decide_eq_false_2 by congruence. reflexivity.
Qed.

End Aggregation.

Lemma unknown_side_row_only_witness :
  let o := filled_order "AAPL" "sell_short" T1 "100" "10" Absent in
  Trades.process_order decimal_float Trades.init o =
  match Trades.row_of decimal_float o with
  | Ok (_, _, r) =>
      Ok (Trades.mkState (Trades.printed Trades.init ++ [r]) (Trades.total_buy Trades.init)
            (Trades.total_sell Trades.init) (Trades.pairs Trades.init))
  | Raise e => Raise e
  end.
Proof.
  intros o.
  apply (unknown_side_row_only decimal_float Trades.init o "sell_short");
    [reflexivity|discriminate|discriminate].
Defined.

(** * Further properties of the win-rate script *)

Section WinRateReport.

Lemma agrees_new_stats : agrees_with_trades new_stats.
Proof. repeat split; reflexivity. Qed.

Lemma agrees_record (strategy_stats : gmap string stats) (s : string) (t : trade) :
  agrees_with_trades (stats_at strategy_stats s) ->
  agrees_with_trades (stats_at (WinRates.record_trade strategy_stats s t) s).
Proof.
  intros (Hn & Hw & Hp). rewrite record_trade_self. unfold agrees_with_trades. simpl.
  rewrite length_app, filter_app, length_app, fmap_app, sum_list_app, filter_cons, filter_nil.
  change (sum_list (t_pnl <$> [t])) with (t_pnl t + 0).
  destruct (Qltb 0 (t_pnl t)) eqn:Hm.
  - rewrite decide_True by exact Hm. simpl. rewrite Hp.
    split; [lia|]. split; [lia|ring].
  - rewrite decide_False by (unfold WinRates.mark; congruence). simpl. rewrite Hp.
    split; [lia|]. split; [lia|ring].
Qed.

(** The entries of [strategy_stats] stay in agreement with their trades, and
    none is ever empty, through every step of the matching loop. *)
Lemma match_sell_agrees (st st' : gmap string stats * list buy_fill) (sell : sell_fill) :
  (forall s e, fst st !! s = Some e -> agrees_with_trades e /\ trades e ≠ []) ->
  WinRates.match_sell st sell = Ok st' ->
  forall s e, fst st' !! s = Some e -> agrees_with_trades e /\ trades e ≠ [].
Proof.
  destruct st as [m pool], st' as [m' pool']. cbn [fst]. intros Hinv.
  unfold WinRates.match_sell. destruct (WinRates.find_buy sell pool) as [[i buy]|].
  - destruct (WinRates.make_trade sell buy) as [t|]; simpl; [|discriminate].
    intros [= <- <-] s e. destruct (decide (s = b_strategy buy)) as [->|Hne].
    + intros He.
      assert (e = stats_at (WinRates.record_trade m (b_strategy buy) t) (b_strategy buy)) as ->
        by (unfold stats_at; now rewrite He).
      split.
      * apply agrees_record. unfold stats_at.
        destruct (m !! b_strategy buy) as [old|] eqn:Hold; simpl;
          [apply (Hinv _ _ Hold)|apply agrees_new_stats].
      * rewrite record_trade_self. simpl. intros Hnil.
        now apply app_eq_nil in Hnil as [_ ?].
    + rewrite record_trade_other by assumption. apply Hinv.
  - intros [= <- <-]. exact Hinv.
Qed.

Lemma reconcile_agrees (buys : list buy_fill) (sells : list sell_fill) (s : string)
    (e : stats) :
  fst (fst (WinRates.reconcile buys sells)) !! s = Some e ->
  agrees_with_trades e /\ (1 <= length (trades e))%nat.
Proof.
  revert s e.
  assert (forall s e, fst (fst (WinRates.reconcile buys sells)) !! s = Some e ->
            agrees_with_trades e /\ trades e ≠ []) as Hinv.
  { unfold WinRates.reconcile. apply for_each_invariant.
    - intros s a s'. apply match_sell_agrees.
    - intros s e. cbn [fst]. now rewrite lookup_empty. }
  intros s e He. destruct (Hinv _ _ He) as [Ha Hne]. split; [exact Ha|].
  destruct (trades e); [congruence|simpl; lia].
Qed.

(** Every strategy of the statistics has at least one trade, its wins and
    losses add up to the number of its trades, its wins are the trades with
    positive P&L (those marked green in the listing), and its P&L total is
    the sum of the P&L of its trades. *)
Theorem strategy_stats_agree_with_trades (buys : list buy_fill) (sells : list sell_fill)
    (strategy : string) (st : stats) :
  fst (fst (WinRates.reconcile buys sells)) !! strategy = Some st ->
  (1 <= length (trades st))%nat /\
  (wins st + losses st)%nat = length (trades st) /\
  wins st = length (filter (fun t => WinRates.mark t = true) (trades st)) /\
  total_pnl st == sum_list (t_pnl <$> trades st).
Proof.
  intros Hst.
  destruct (reconcile_agrees _ _ _ _ Hst) as ((Hn & Hw & Hp) & Hne).
  repeat split; assumption.
Qed.

Lemma win_rate_bounds (st : stats) : 0 <= WinRates.win_rate st /\ WinRates.win_rate st <= 100.
Proof.
  unfold WinRates.win_rate. case_bool_decide as Htot; [|split; [apply Qle_refl|discriminate]].
  assert (0 < inject_Z (Z.of_nat (wins st + losses st))) as Hpos
    by (unfold Qlt; cbn; lia).
  assert (0 <= inject_Z (Z.of_nat (wins st))) as Hw by (unfold Qle; cbn; lia).
  assert (inject_Z (Z.of_nat (wins st)) <= inject_Z (Z.of_nat (wins st + losses st))) as Hle
    by (unfold Qle; cbn; lia).
  split.
  - apply Qmult_le_0_compat; [|discriminate].
    apply Qle_shift_div_l; [assumption|]. now rewrite Qmult_0_l.
  - apply Qle_trans with (1 * 100); [|discriminate].
    apply Qmult_le_compat_r; [|discriminate].
    apply Qle_shift_div_r; [assumption|]. now rewrite Qmult_1_l.
Qed.

(** The summary table lists each strategy of the statistics once, in
    ascending order of its name, and in each line the total is the wins plus
    the losses, is at least one (so the guard of line 107 never takes its
    else branch), and the win rate lies between 0 and 100. *)
Theorem summary_rows_sound (buys : list buy_fill) (sells : list sell_fill) :
  let strategy_stats := fst (fst (WinRates.reconcile buys sells)) in
  let rows := WinRates.summary strategy_stats in
  ascending id (WinRates.sr_strategy <$> rows) /\
  NoDup (WinRates.sr_strategy <$> rows) /\
  (forall s, s ∈ WinRates.sr_strategy <$> rows <-> is_Some (strategy_stats !! s)) /\
  Forall (fun r =>
            WinRates.sr_total r = (WinRates.sr_wins r + WinRates.sr_losses r)%nat /\
            (1 <= WinRates.sr_total r)%nat /\
            0 <= WinRates.sr_win_rate r <= 100 /\
            WinRates.sr_win_rate r ==
              inject_Z (Z.of_nat (WinRates.sr_wins r)) /
              inject_Z (Z.of_nat (WinRates.sr_total r)) * 100)
         rows.
Proof.
  intros strategy_stats rows.
  assert (WinRates.sr_strategy <$> rows = WinRates.sorted_keys strategy_stats) as Hkeys.
  { subst rows. unfold WinRates.summary. rewrite <- list_fmap_compose.
    apply list_fmap_id. }
  assert (forall s, s ∈ WinRates.sorted_keys strategy_stats <-> is_Some (strategy_stats !! s))
    as Hdom.
  { intros s. unfold WinRates.sorted_keys. rewrite (sort_by_perm id).
    rewrite list_elem_of_fmap. split.
    - intros ([k e] & -> & Hin). apply elem_of_map_to_list in Hin. eauto.
    - intros [e He]. exists (s, e). split; [reflexivity|]. now apply elem_of_map_to_list. }
  rewrite Hkeys. repeat split.
  - apply sort_by_ascending.
  - unfold WinRates.sorted_keys. rewrite (sort_by_perm id). apply NoDup_fst_map_to_list.
  - apply Hdom.
  - apply Hdom.
  - subst rows. unfold WinRates.summary. apply Forall_forall. intros r Hr.
    apply list_elem_of_In, in_map_iff in Hr as (s & <- & Hs).
    apply list_elem_of_In, Hdom in Hs as [e He]. rewrite He. simpl.
    destruct (reconcile_agrees buys sells s e He) as ((Hn & _) & H1).
    repeat split; try lia; try apply win_rate_bounds.
    unfold WinRates.win_rate. rewrite bool_decide_eq_true_2 by lia. reflexivity.
Qed.

Lemma last_n_suffix {A : Type} (n : nat) (l : list A) :
  exists older, l = older ++ WinRates.last_n n l /\
    length (WinRates.last_n n l) = Nat.min n (length l) /\
    ((length l <= n)%nat -> WinRates.last_n n l = l).
Proof.
  unfold WinRates.last_n. exists (take (length l - n) l). split; [|split].
  - now rewrite take_drop.
  - rewrite length_drop. lia.
  - intros H. replace (length l - n)%nat with 0%nat by lia. reflexivity.
Qed.

End WinRateReport.

(** One matched pair: the statistics of its strategy after the loop. *)
Lemma strategy_stats_agree_with_trades_witness :
  let buy := mkBuy (Some "AAPL") "momentum" 100 10 T1 1000 in
  let sell := mkSell (Some "AAPL") 110 10 T2 1100 in
  let st := stats_at (fst (fst (WinRates.reconcile [buy] [sell]))) "momentum" in
  (1 <= length (trades st))%nat /\
  (wins st + losses st)%nat = length (trades st) /\
  wins st = length (filter (fun t => WinRates.mark t = true) (trades st)) /\
  total_pnl st == sum_list (t_pnl <$> trades st).
Proof.
  intros buy sell st.
  apply (strategy_stats_agree_with_trades [buy] [sell] "momentum" st).
  vm_compute. reflexivity.
Defined.

Section WinRateListing.

Lemma trade_lines_from (acc : list (trade * bool)) (recent : list trade) :
  Forall (fun t => t_symbol t ≠ None) recent ->
  for_each (fun lines t => l ← WinRates.trade_line t; Ok (lines ++ [l])) acc recent =
  (acc ++ ((fun t => (t, WinRates.mark t)) <$> recent), None).
Proof.
  intros H. revert acc. induction H as [|t recent Ht _ IH]; intros acc; cbn [for_each].
  - now rewrite fmap_nil, app_nil_r.
  - unfold WinRates.trade_line at 1. destruct (t_symbol t); [|congruence].
    cbn [mbind result_bind]. rewrite IH, fmap_cons, <- app_assoc. reflexivity.
Qed.

Lemma trade_lines_raise (acc : list (trade * bool)) (recent : list trade) (e : exn) :
  snd (for_each (fun lines t => l ← WinRates.trade_line t; Ok (lines ++ [l])) acc recent)
    = Some e ->
  e = TypeError /\ exists t, t ∈ recent /\ t_symbol t = None.
Proof.
  revert acc. induction recent as [|t recent IH]; intros acc; cbn [for_each]; [discriminate|].
  unfold WinRates.trade_line at 1. destruct (t_symbol t) eqn:Hs; cbn [mbind result_bind].
  - intros H. destruct (IH _ H) as (-> & t' & Hin & Ht').
    split; [reflexivity|]. exists t'. split; [now right|exact Ht'].
  - intros [= <-]. split; [reflexivity|]. exists t. split; [left|exact Hs].
Qed.

Lemma list_strategies_complete (strategy_stats : gmap string stats) (l : list string) :
  (forall s t, s ∈ l -> t ∈ WinRates.last_n 10 (trades (stats_at strategy_stats s)) ->
     t_symbol t ≠ None) ->
  WinRates.list_strategies strategy_stats l =
  ((fun s => (s, (fun t => (t, WinRates.mark t)) <$>
                   WinRates.last_n 10 (trades (stats_at strategy_stats s)))) <$> l, None).
Proof.
  induction l as [|s l IH]; intros H; [reflexivity|]. cbn [WinRates.list_strategies].
  unfold WinRates.trade_lines. fold (stats_at strategy_stats s).
  rewrite trade_lines_from.
  2:{ apply Forall_forall. intros t Ht. apply (H s t); [left|exact Ht]. }
  rewrite IH by (intros s' t Hs'; apply H; now right).
  now rewrite fmap_cons, app_nil_l.
Qed.

Lemma list_strategies_raise (strategy_stats : gmap string stats) (l : list string)
    (e : exn) :
  snd (WinRates.list_strategies strategy_stats l) = Some e ->
  e = TypeError /\
  exists s t, s ∈ l /\ t ∈ WinRates.last_n 10 (trades (stats_at strategy_stats s)) /\
    t_symbol t = None.
Proof.
  induction l as [|s l IH]; [discriminate|]. cbn [WinRates.list_strategies].
  unfold WinRates.trade_lines. fold (stats_at strategy_stats s).
  destruct (for_each _ [] (WinRates.last_n 10 (trades (stats_at strategy_stats s))))
    as [lines [e'|]] eqn:Hl.
  - cbn [snd]. intros [= ->].
    destruct (trade_lines_raise []
                (WinRates.last_n 10 (trades (stats_at strategy_stats s))) e)
      as (-> & t & Hin & Ht); [now rewrite Hl|].
    split; [reflexivity|]. exists s, t. split; [left|]. now split.
  - destruct (WinRates.list_strategies strategy_stats l) as [out e'']. cbn [snd] in *.
    intros He. destruct (IH He) as (-> & s' & t & Hs' & Hin & Ht).
    split; [reflexivity|]. exists s', t. split; [now right|]. now split.
Qed.

(** The listing of recent trades goes through the strategies in sorted
    order and shows, for each, its last ten trades in the order they were
    recorded (all of them when there are at most ten), marked green exactly
    when their P&L is positive.  It runs to the end when every trade shown
    has a symbol; it can only be stopped by [TypeError], at a trade shown
    whose symbol is [None]. *)
Theorem recent_trades_sound (strategy_stats : gmap string stats) :
  let shown := fun s => WinRates.last_n 10 (trades (stats_at strategy_stats s)) in
  ((forall s t, s ∈ WinRates.sorted_keys strategy_stats -> t ∈ shown s -> t_symbol t ≠ None) ->
   WinRates.recent_trades strategy_stats =
   ((fun s => (s, (fun t => (t, WinRates.mark t)) <$> shown s))
      <$> WinRates.sorted_keys strategy_stats, None)) /\
  (forall e, snd (WinRates.recent_trades strategy_stats) = Some e ->
     e = TypeError /\
     exists s t, s ∈ WinRates.sorted_keys strategy_stats /\ t ∈ shown s /\ t_symbol t = None) /\
  (forall s, exists older,
     trades (stats_at strategy_stats s) = older ++ shown s /\
     length (shown s) = Nat.min 10 (length (trades (stats_at strategy_stats s)))) /\
  (forall t, WinRates.mark t = true <-> 0 < t_pnl t).
Proof.
  intros shown. split; [apply list_strategies_complete|].
  split; [apply list_strategies_raise|]. split.
  - intros s. destruct (last_n_suffix 10 (trades (stats_at strategy_stats s)))
      as (older & Hl & Hlen & _).
    exists older. now split.
  - intros t. unfold WinRates.mark, Qltb. rewrite negb_true_iff. split.
    + intros H. apply Qnot_le_lt. intros Hle. apply Qle_bool_iff in Hle. congruence.
    + intros H. destruct (Qle_bool (t_pnl t) 0) eqn:E; [|reflexivity].
      apply Qle_bool_iff in E. exfalso. eapply Qlt_not_le; eassumption.
Qed.

(** The buys left unmatched are a sublist of the buys as line 66 sorted
    them, so they are still in ascending order of their timestamps, as
    Python compares strings. *)
Theorem unmatched_buys_keep_sorted_order (buys : list buy_fill) (sells : list sell_fill) :
  let pool := snd (fst (WinRates.reconcile buys sells)) in
  pool `sublist_of` sort_by b_time buys /\ ascending b_time pool.
Proof.
  unfold WinRates.reconcile.
  apply (for_each_invariant WinRates.match_sell
           (fun st => snd st `sublist_of` sort_by b_time buys /\ ascending b_time (snd st))).
  - intros [m pool] sell [m' pool'] [Hsub Hasc]. cbn [snd] in *.
    unfold WinRates.match_sell. destruct (WinRates.find_buy sell pool) as [[i buy]|].
    + destruct (WinRates.make_trade sell buy); simpl; [|discriminate].
      intros [= <- <-]. split; [|now apply delete_ascending].
      etransitivity; [apply sublist_delete|exact Hsub].
    + intros [= <- <-]. auto.
  - cbn [snd]. split; [reflexivity|apply sort_by_ascending].
Qed.

Lemma for_each_raise {St A} (body : St -> A -> result St) (I : St -> Prop)
    (E : exn -> Prop) (s : St) (l : list A) :
  (forall s a s', I s -> body s a = Ok s' -> I s') ->
  (forall s a e, I s -> body s a = Raise e -> E e) ->
  I s -> forall e, snd (for_each body s l) = Some e -> E e.
Proof.
  intros Hstep Hraise. revert s. induction l as [|a l IH]; intros s Hs e; simpl;
    [discriminate|].
  destruct (body s a) eqn:Hb.
  - apply IH. eapply Hstep; eassumption.
  - intros [= <-]. eapply Hraise; eassumption.
Qed.

(** The matching loop can only be ended by the division of line 76: if it
    stops early, it stops with ZeroDivisionError and some buy of the input has
    notional zero; when no buy has notional zero it runs through all sells. *)
Theorem matching_stops_only_on_zero_notional (buys : list buy_fill)
    (sells : list sell_fill) :
  (forall e, snd (WinRates.reconcile buys sells) = Some e ->
     e = ZeroDivisionError /\ exists b, b ∈ buys /\ b_notional b == 0) /\
  (Forall (fun b => ~ b_notional b == 0) buys ->
   snd (WinRates.reconcile buys sells) = None).
Proof.
  assert (forall e, snd (WinRates.reconcile buys sells) = Some e ->
            e = ZeroDivisionError /\ exists b, b ∈ buys /\ b_notional b == 0) as Hstop.
  { unfold WinRates.reconcile.
    apply (for_each_raise WinRates.match_sell (fun st => forall b, b ∈ snd st -> b ∈ buys)).
    - intros [m pool] sell [m' pool'] Hsub. cbn [snd] in *.
      unfold WinRates.match_sell. destruct (WinRates.find_buy sell pool) as [[i buy]|].
      + destruct (WinRates.make_trade sell buy); simpl; [|discriminate].
        intros [= <- <-] b Hb. apply Hsub.
        eapply elem_of_sublist; [exact Hb|apply sublist_delete].
      + intros [= <- <-]. exact Hsub.
    - intros [m pool] sell e Hsub. cbn [snd] in *.
      unfold WinRates.match_sell.
      destruct (WinRates.find_buy sell pool) as [[i buy]|] eqn:Hf; [|discriminate].
      destruct (find_buy_some _ _ _ _ Hf) as (pre & post & -> & _).
      unfold WinRates.make_trade, py_div.
      destruct (Qeq_bool (b_notional buy) 0) eqn:Hz; simpl; [|discriminate].
      intros [= <-]. split; [reflexivity|]. exists buy. split.
      + apply Hsub, elem_of_app. right. left.
      + now apply Qeq_bool_iff.
    - cbn [snd]. intros b Hb. now rewrite (sort_by_perm b_time buys) in Hb. }
  split; [exact Hstop|].
  intros Hnz. destruct (snd (WinRates.reconcile buys sells)) as [e|] eqn:He; [|reflexivity].
  destruct (Hstop e eq_refl) as (_ & b & Hb & Hz).
  rewrite Forall_forall in Hnz. destruct (Hnz b Hb Hz).
Qed.


End WinRateListing.

Lemma matching_stops_only_on_zero_notional_witness :
  let b1 := mkBuy (Some "AAPL") "momentum" 100 10 T1 1000 in
  let b2 := mkBuy (Some "AAPL") "meanrev" 105 10 T2 1050 in
  let sell := mkSell (Some "AAPL") 110 10 T3 1100 in
  snd (WinRates.reconcile [b2; b1] [sell]) = None.
Proof.
  intros b1 b2 sell.
  apply (proj2 (matching_stops_only_on_zero_notional [b2; b1] [sell])).
  repeat constructor; vm_compute; discriminate.
Defined.

Section Fills.

Variable float_of_str : string -> option Q.

(** When the classification loop completes, its two lists are the fills of
    the orders, in batch order. *)
Lemma classify_completed (orders : list order) (buys : list buy_fill)
    (sells : list sell_fill) :
  WinRates.classify float_of_str orders = ((buys, sells), None) ->
  buys = buys_of float_of_str orders /\ sells = sells_of float_of_str orders.
Proof.
  unfold WinRates.classify. intros Hc.
  destruct (classify_dichotomy float_of_str orders) as [Hok|Hbad].
  - rewrite (classify_from float_of_str [] [] orders Hok) in Hc. now injection Hc as <- <-.
  - destruct (classify_raises float_of_str ([], []) orders Hbad) as (st & e & He).
    rewrite He in Hc. discriminate.
Qed.

Lemma classify_order_buys (o : order) (bs : list buy_fill) (ss : list sell_fill)
    (b : buy_fill) :
  WinRates.classify_order float_of_str ([], []) o = Ok (bs, ss) -> b ∈ bs ->
  o_side o = Val "buy" /\
  o_filled_at o = Val (b_time b) /\
  getitem "symbol" (o_symbol o) = Ok (b_symbol b) /\
  WinRates.strategy_of (o_client_order_id o) = Ok (b_strategy b) /\
  b_notional b = b_price b * b_qty b.
Proof.
  unfold WinRates.classify_order, get.
  destruct (o_filled_at o) as [| |t]; try (intros [= <- <-] Hin; now apply elem_of_nil in Hin).
  destruct (getitem "side" (o_side o)) as [side|] eqn:Hside; simpl; [|discriminate].
  case_bool_decide as Hb.
  - subst side. assert (o_side o = Val "buy") as Hs.
    { destruct (o_side o); simpl in Hside; congruence. }
    destruct (WinRates.strategy_of (o_client_order_id o)) as [tag|]; simpl; [|discriminate].
    destruct (getitem "symbol" (o_symbol o)) as [sym|]; simpl; [|discriminate].
    destruct (py_float float_of_str (get_default (o_filled_avg_price o) (Some (SNum 0))))
      as [p|]; simpl; [|discriminate].
    destruct (py_float float_of_str (get_default (o_filled_qty o) (Some (SNum 0))))
      as [q|]; simpl; [|discriminate].
    intros [= <- <-] Hin. apply list_elem_of_singleton in Hin. subst b. simpl. auto.
  - case_bool_decide as Hsell.
    + destruct (getitem "symbol" (o_symbol o)) as [sym|]; simpl; [|discriminate].
      destruct (py_float float_of_str (get_default (o_filled_avg_price o) (Some (SNum 0))))
        as [p|]; simpl; [|discriminate].
      destruct (py_float float_of_str (get_default (o_filled_qty o) (Some (SNum 0))))
        as [q|]; simpl; [|discriminate].
      intros [= <- <-] Hin. now apply elem_of_nil in Hin.
    + intros [= <- <-] Hin. now apply elem_of_nil in Hin.
Qed.

Lemma classify_order_sells (o : order) (bs : list buy_fill) (ss : list sell_fill)
    (s : sell_fill) :
  WinRates.classify_order float_of_str ([], []) o = Ok (bs, ss) -> s ∈ ss ->
  o_side o = Val "sell" /\
  o_filled_at o = Val (s_time s) /\
  getitem "symbol" (o_symbol o) = Ok (s_symbol s) /\
  s_notional s = s_price s * s_qty s.
Proof.
  unfold WinRates.classify_order, get.
  destruct (o_filled_at o) as [| |t]; try (intros [= <- <-] Hin; now apply elem_of_nil in Hin).
  destruct (getitem "side" (o_side o)) as [side|] eqn:Hside; simpl; [|discriminate].
  case_bool_decide as Hb.
  - destruct (WinRates.strategy_of (o_client_order_id o)) as [tag|]; simpl; [|discriminate].
    destruct (getitem "symbol" (o_symbol o)) as [sym|]; simpl; [|discriminate].
    destruct (py_float float_of_str (get_default (o_filled_avg_price o) (Some (SNum 0))))
      as [p|]; simpl; [|discriminate].
    destruct (py_float float_of_str (get_default (o_filled_qty o) (Some (SNum 0))))
      as [q|]; simpl; [|discriminate].
    intros [= <- <-] Hin. now apply elem_of_nil in Hin.
  - case_bool_decide as Hsell.
    + subst side. assert (o_side o = Val "sell") as Hs.
      { destruct (o_side o); simpl in Hside; congruence. }
      destruct (getitem "symbol" (o_symbol o)) as [sym|]; simpl; [|discriminate].
      destruct (py_float float_of_str (get_default (o_filled_avg_price o) (Some (SNum 0))))
        as [p|]; simpl; [|discriminate].
      destruct (py_float float_of_str (get_default (o_filled_qty o) (Some (SNum 0))))
        as [q|]; simpl; [|discriminate].
      intros [= <- <-] Hin. apply list_elem_of_singleton in Hin. subst s. simpl. auto.
    + intros [= <- <-] Hin. now apply elem_of_nil in Hin.
Qed.

(** Every buy fill comes from an order of the batch with side buy: it has
    the fill timestamp, the symbol and the strategy tag of that order, and
    its notional is its price times its quantity; likewise for sell fills. *)
Theorem fills_come_from_orders (orders : list order) (buys : list buy_fill)
    (sells : list sell_fill) :
  WinRates.classify float_of_str orders = ((buys, sells), None) ->
  (forall b, b ∈ buys ->
     exists o, o ∈ orders /\ o_side o = Val "buy" /\
       o_filled_at o = Val (b_time b) /\
       getitem "symbol" (o_symbol o) = Ok (b_symbol b) /\
       WinRates.strategy_of (o_client_order_id o) = Ok (b_strategy b) /\
       b_notional b = b_price b * b_qty b) /\
  (forall s, s ∈ sells ->
     exists o, o ∈ orders /\ o_side o = Val "sell" /\
       o_filled_at o = Val (s_time s) /\
       getitem "symbol" (o_symbol o) = Ok (s_symbol s) /\
       s_notional s = s_price s * s_qty s).
Proof.
  intros Hc. apply classify_completed in Hc as [-> ->]. split.
  - intros b Hb. unfold buys_of in Hb. apply list_elem_of_bind in Hb as (o & Hb & Ho).
    exists o. split; [exact Ho|].
    destruct (WinRates.classify_order float_of_str ([], []) o) as [[bs ss]|] eqn:Hc;
      [|now apply elem_of_nil in Hb].
    eapply classify_order_buys; eassumption.
  - intros s Hs. unfold sells_of in Hs. apply list_elem_of_bind in Hs as (o & Hs & Ho).
    exists o. split; [exact Ho|].
    destruct (WinRates.classify_order float_of_str ([], []) o) as [[bs ss]|] eqn:Hc;
      [|now apply elem_of_nil in Hs].
    eapply classify_order_sells; eassumption.
Qed.

(** A filled buy or sell order whose price is null ends the win-rate script
    with TypeError ([float(None)]), unless an earlier order already ended it. *)
Theorem null_price_stops_win_rates (pre post : list order) (o : order) (side : string) :
  filled o = true -> o_side o = Val side -> side = "buy" \/ side = "sell" ->
  o_symbol o ≠ Absent -> o_filled_avg_price o = Null ->
  WinRates.run float_of_str (pre ++ o :: post) =
  Raise (match snd (WinRates.classify float_of_str pre) with
         | Some e => e
         | None => TypeError
         end).
Proof.
  intros Hf Hside Hbs Hsym Hprice. unfold WinRates.run.
  rewrite (classify_stops float_of_str pre post o TypeError);
    [destruct (WinRates.classify float_of_str pre) as [[bs ss] oe]; reflexivity|].
  intros [buys sells]. unfold WinRates.classify_order, filled in *.
  apply bool_decide_eq_true in Hf as [t ->]. rewrite Hside, Hprice.
  destruct (strategy_of_total (o_client_order_id o)) as [tag Htag].
  destruct Hbs as [-> | ->]; simpl; rewrite ?Htag; simpl;
    destruct (o_symbol o); simpl; congruence.
Qed.

(** In the per-symbol script an order with symbol and side whose price is
    null stops the loop with TypeError at that order, filled or not: line 20
    reads [None] and line 28 calls [float] on it. *)
Theorem null_price_stops_trades (pre post : list order) (o : order) (symbol side : string) :
  o_symbol o = Val symbol -> o_side o = Val side -> o_filled_avg_price o = Null ->
  Trades.run float_of_str (pre ++ o :: post) =
  (fst (Trades.run float_of_str pre),
   Some (match snd (Trades.run float_of_str pre) with
         | Some e => e
         | None => TypeError
         end)).
Proof.
  intros Hsym Hside Hprice. apply trades_run_stops. intros st.
  unfold Trades.process_order, Trades.row_of, Trades.notional_of, mbind, result_bind.
  rewrite Hsym, Hside, Hprice. simpl.
  destruct (get_default (o_filled_qty o) (get_default (o_qty o) (Some (SStr "0"))));
    reflexivity.
Qed.

End Fills.

(** A tagged buy and an untagged sell, both filled. *)
Lemma fills_come_from_orders_witness :
  let orders := [filled_order "AAPL" "buy" T1 "100" "10" (Val "lft_momentum_1");
                 filled_order "AAPL" "sell" T2 "110" "10" Absent] in
  let buys := fst (fst (WinRates.classify decimal_float orders)) in
  let sells := snd (fst (WinRates.classify decimal_float orders)) in
  (forall b, b ∈ buys ->
     exists o, o ∈ orders /\ o_side o = Val "buy" /\
       o_filled_at o = Val (b_time b) /\
       getitem "symbol" (o_symbol o) = Ok (b_symbol b) /\
       WinRates.strategy_of (o_client_order_id o) = Ok (b_strategy b) /\
       b_notional b = b_price b * b_qty b) /\
  (forall s, s ∈ sells ->
     exists o, o ∈ orders /\ o_side o = Val "sell" /\
       o_filled_at o = Val (s_time s) /\
       getitem "symbol" (o_symbol o) = Ok (s_symbol s) /\
       s_notional s = s_price s * s_qty s).
Proof.
  intros orders buys sells.
  apply (fills_come_from_orders decimal_float orders buys sells).
  vm_compute. reflexivity.
Defined.

(** A filled buy whose price is null, alone in the batch. *)
Lemma null_price_stops_win_rates_witness :
  let o := mkOrder (Val "AAPL") (Val "buy") (Val (SStr "10")) (Val (SStr "10")) Null
             (Val T1) (Val T1) Absent in
  WinRates.run decimal_float ([] ++ o :: []) =
  Raise (match snd (WinRates.classify decimal_float []) with
         | Some e => e
         | None => TypeError
         end).
Proof.
  intros o.
  apply (null_price_stops_win_rates decimal_float [] [] o "buy");
    [reflexivity|reflexivity|left; reflexivity|discriminate|reflexivity].
Defined.

(** An order not yet filled, as the broker lists it (null price and fill
    time), after a filled one. *)
Lemma null_price_stops_trades_witness :
  let good := filled_order "AAPL" "buy" T1 "100" "10" Absent in
  let o := mkOrder (Val "MSFT") (Val "buy") (Val (SStr "5")) (Val (SStr "0")) Null
             Null (Val T2) Null in
  Trades.run decimal_float ([good] ++ o :: []) =
  (fst (Trades.run decimal_float [good]),
   Some (match snd (Trades.run decimal_float [good]) with
         | Some e => e
         | None => TypeError
         end)).
Proof.
  intros good o.
  apply (null_price_stops_trades decimal_float [good] [] o "MSFT" "buy"); reflexivity.
Defined.

(** * Further properties of the per-symbol script *)

Section PerSymbol.

Variable float_of_str : string -> option Q.

Lemma notionals_of_snoc (symbol side : string) (rows : list row) (r : row) :
  notionals_of symbol side (rows ++ [r]) =
  notionals_of symbol side rows ++
    (if decide (r_symbol r = symbol /\ r_side r = side) then [r_notional r] else []).
Proof.
  unfold notionals_of. rewrite filter_app, fmap_app, filter_cons, filter_nil.
  now destruct (decide (r_symbol r = symbol /\ r_side r = side)).
Qed.

Lemma process_order_tracks (st st' : Trades.state) (o : order) :
  (forall symbol, tracks st symbol) ->
  Trades.process_order float_of_str st o = Ok st' ->
  forall symbol, tracks st' symbol.
Proof.
  intros Hinv Hstep symbol. specialize (Hinv symbol).
  destruct (process_order_ok float_of_str _ _ _ Hstep) as (sym & side & r & _ & Hrows & Hcase).
  unfold tracks in *. rewrite Hrows, !notionals_of_snoc.
  destruct Hcase as [(Hside & _ & _ & ->)|[(Hside & _ & _ & ->)|(Hnb & Hns & _ & _ & ->)]].
  - rewrite lookup_append_buy, Hside.
    rewrite (decide_False (P := r_symbol r = symbol /\ "buy" = "sell"))
      by (intros [_ ?]; discriminate).
    rewrite app_nil_r.
    destruct (decide (symbol = r_symbol r)) as [->|Hne].
    + rewrite decide_True by auto.
      destruct (Trades.pairs st !! r_symbol r) as [[bs ss]|]; simpl.
      * destruct Hinv as (-> & -> & _). repeat split. left.
        intros Hnil. now apply app_eq_nil in Hnil as [_ ?].
      * destruct Hinv as (-> & ->). repeat split. left. discriminate.
    + rewrite decide_False by (intros [? _]; congruence). rewrite app_nil_r. exact Hinv.
  - rewrite lookup_append_sell, Hside.
    rewrite (decide_False (P := r_symbol r = symbol /\ "sell" = "buy"))
      by (intros [_ ?]; discriminate).
    rewrite app_nil_r.
    destruct (decide (symbol = r_symbol r)) as [->|Hne].
    + rewrite decide_True by auto.
      destruct (Trades.pairs st !! r_symbol r) as [[bs ss]|]; simpl.
      * destruct Hinv as (-> & -> & _). repeat split. right.
        intros Hnil. now apply app_eq_nil in Hnil as [_ ?].
      * destruct Hinv as (-> & ->). repeat split. right. discriminate.
    + rewrite decide_False by (intros [? _]; congruence). rewrite app_nil_r. exact Hinv.
  - rewrite !decide_False by (intros [_ ?]; contradiction). rewrite !app_nil_r. exact Hinv.
Qed.

Lemma run_tracks (orders : list order) (symbol : string) :
  tracks (fst (Trades.run float_of_str orders)) symbol.
Proof.
  revert symbol. unfold Trades.run.
  apply (for_each_invariant (Trades.process_order float_of_str)
           (fun st => forall symbol, tracks st symbol)).
  - intros s a s'. apply process_order_tracks.
  - intros symbol. unfold tracks. simpl. rewrite lookup_empty. split; reflexivity.
Qed.

(** In the state the loop stops in, the two lists kept for a symbol are the
    notionals of the buy rows and of the sell rows printed for that symbol,
    in the order of the rows; a symbol is in the dictionary exactly when it
    has such a row. *)
Theorem per_symbol_lists (orders : list order) (symbol : string) :
  let st := fst (Trades.run float_of_str orders) in
  match Trades.pairs st !! symbol with
  | Some (buys, sells) =>
      buys = notionals_of symbol "buy" (Trades.printed st) /\
      sells = notionals_of symbol "sell" (Trades.printed st) /\
      (buys ≠ [] \/ sells ≠ [])
  | None =>
      notionals_of symbol "buy" (Trades.printed st) = [] /\
      notionals_of symbol "sell" (Trades.printed st) = []
  end.
Proof. exact (run_tracks orders symbol). Qed.

Lemma insert_by_fmap {A} (key : A -> string) (x : A) (l : list A) :
  key <$> insert_by key x l = insert_by id (key x) (key <$> l).
Proof.
  induction l as [|y l IH]; [reflexivity|].
  rewrite fmap_cons. cbn [insert_by]. unfold id at 1 2.
  destruct (String.leb (key x) (key y)); rewrite !fmap_cons; [reflexivity|].
  now rewrite IH.
Qed.

Lemma sort_by_fmap {A} (key : A -> string) (l : list A) :
  key <$> sort_by key l = sort_by id (key <$> l).
Proof.
  induction l as [|x l IH]; [reflexivity|].
  rewrite fmap_cons. cbn [sort_by]. now rewrite insert_by_fmap, IH.
Qed.

(** The breakdown has a line for a symbol exactly when the symbol has a buy
    row or a sell row among the printed rows, and then only one; the lines
    come in ascending order of the symbol, as Python compares strings; each
    shows the bought and sold totals and their difference when the symbol
    has buy rows and sell rows, is the still-open line when it has buy rows
    only, and the close-only line when it has sell rows only. *)
Theorem breakdown_lines (orders : list order) :
  let st := fst (Trades.run float_of_str orders) in
  let lines := Trades.breakdown (Trades.pairs st) in
  ascending id (fst <$> lines) /\
  NoDup (fst <$> lines) /\
  (forall symbol,
     symbol ∈ fst <$> lines <->
     notionals_of symbol "buy" (Trades.printed st) ≠ [] \/
     notionals_of symbol "sell" (Trades.printed st) ≠ []) /\
  forall symbol line, (symbol, line) ∈ lines ->
    let buys := notionals_of symbol "buy" (Trades.printed st) in
    let sells := notionals_of symbol "sell" (Trades.printed st) in
    (buys ≠ [] \/ sells ≠ []) /\
    line = Some (match buys, sells with
                 | _ :: _, _ :: _ => Closed (py_sum buys) (py_sum sells) (py_sum sells - py_sum buys)
                 | _ :: _, [] => StillOpen (py_sum buys)
                 | [], _ => CloseOnly (py_sum sells)
                 end).
Proof.
  intros st lines.
  assert (fst <$> lines = sort_by id (fst <$> map_to_list (Trades.pairs st))) as Hkeys.
  { subst lines. unfold Trades.breakdown, Trades.sorted_items.
    rewrite <- list_fmap_compose. apply (sort_by_fmap fst). }
  split; [rewrite Hkeys; apply sort_by_ascending|].
  split; [rewrite Hkeys, (sort_by_perm id); apply NoDup_fst_map_to_list|].
  split.
  { intros symbol. rewrite Hkeys, (sort_by_perm id), list_elem_of_fmap.
    pose proof (run_tracks orders symbol) as Ht. unfold tracks in Ht. fold st in Ht.
    split.
    - intros ([k v] & -> & Hin). apply elem_of_map_to_list in Hin. cbn [fst] in *.
      rewrite Hin in Ht. destruct v as [bs ss]. now destruct Ht as (<- & <- & Hne).
    - intros Hne. destruct (Trades.pairs st !! symbol) as [v|] eqn:Hv.
      + exists (symbol, v). split; [reflexivity|]. now apply elem_of_map_to_list.
      + destruct Ht as [Hb Hs]. destruct Hne; congruence. }
  intros symbol line Hin buys sells.
  subst lines. unfold Trades.breakdown, Trades.sorted_items in Hin.
  apply list_elem_of_In, in_map_iff in Hin as ([k v] & Heq & Hin). simpl in Heq.
  injection Heq as -> <-.
  apply list_elem_of_In in Hin. rewrite (sort_by_perm fst) in Hin.
  apply elem_of_map_to_list in Hin.
  pose proof (run_tracks orders symbol) as Ht. unfold tracks in Ht. fold st in Ht.
  rewrite Hin in Ht. destruct v as [bs ss]. destruct Ht as (Hb & Hs & Hne).
  fold buys in Hb. fold sells in Hs. subst bs ss. split; [exact Hne|].
  unfold Trades.line_of. cbn [fst snd].
  destruct buys as [|b buys'], sells as [|s sells']; simpl; try reflexivity.
  destruct Hne; congruence.
Qed.

Lemma take_str_length (n : nat) (s : string) : (String.length (take_str n s) <= n)%nat.
Proof.
  revert s. induction n as [|n IH]; intros [|a s]; simpl; try lia.
  specialize (IH s). lia.
Qed.

(** The time column of a row is never empty and never longer than nineteen
    characters: it is N/A when the order has no usable timestamp. *)
Theorem time_column_bounds (o : order) (symbol side : option string) (r : row) :
  Trades.row_of float_of_str o = Ok (symbol, side, r) ->
  (1 <= String.length (r_time r) <= 19)%nat /\
  (get_default (o_filled_at o) (get_default (o_created_at o) (Some "")) = None \/
   get_default (o_filled_at o) (get_default (o_created_at o) (Some "")) = Some "" ->
   r_time r = "N/A").
Proof.
  intros Hr.
  assert (r_time r = Trades.time_of o) as ->.
  { revert Hr. unfold Trades.row_of, mbind, result_bind.
    case_result; try discriminate. now intros [= <- <- <-]. }
  unfold Trades.time_of.
  destruct (get_default (o_filled_at o) (get_default (o_created_at o) (Some ""))) as [t|].
  - destruct t as [|a t].
    + simpl. split; [lia|reflexivity].
    + change (String.eqb (String a t) "") with false. cbv iota.
      change (take_str 19 (String a t)) with (String a (take_str 18 t)).
      cbn [String.length]. pose proof (take_str_length 18 t).
      split; [lia|]. intros [?|?]; discriminate.
  - simpl. split; [lia|reflexivity].
Qed.

(** C8, as the code has it: aggregation keeps the notionals themselves.  In
    the state the loop stops in, the lists kept for a symbol are the
    notionals of its printed buy rows and of its printed sell rows, in row
    order, and the two totals are the sums of the notionals of the buy rows
    and of the sell rows.  Over exact numbers the per-symbol totals therefore
    add up to the total bought and the total sold, and the P&L added up over
    the symbols is the total sold minus the total bought.  When the loop
    completes, the rows are those of the orders of the batch, one each and
    in order. *)
Theorem aggregation_conserves_totals (orders : list order) :
  let st := fst (Trades.run float_of_str orders) in
  let rows := Trades.printed st in
  (forall symbol,
     match Trades.pairs st !! symbol with
     | Some (buys, sells) =>
         buys = notionals_of symbol "buy" rows /\ sells = notionals_of symbol "sell" rows
     | None =>
         notionals_of symbol "buy" rows = [] /\ notionals_of symbol "sell" rows = []
     end) /\
  Trades.total_buy st == side_notionals "buy" rows /\
  Trades.total_sell st == side_notionals "sell" rows /\
  sum_buys (Trades.pairs st) == Trades.total_buy st /\
  sum_sells (Trades.pairs st) == Trades.total_sell st /\
  Trades.total_pnl (Trades.pairs st) == Trades.net_pnl st /\
  (snd (Trades.run float_of_str orders) = None ->
   Forall2 (fun o r => exists symbol side, Trades.row_of float_of_str o = Ok (symbol, side, r))
     orders rows).
Proof.
  intros st rows.
  destruct (run_totals float_of_str orders) as (Hb & Hs & Hrb & Hrs & Hp & Hall).
  split; [|now repeat split].
  intros symbol. pose proof (run_tracks orders symbol) as Ht. unfold tracks in Ht.
  fold st in Ht. fold rows in Ht.
  destruct (Trades.pairs st !! symbol) as [[bs ss]|]; [|exact Ht].
  now destruct Ht as (? & ? & _).
Qed.

End PerSymbol.

Lemma aggregation_conserves_totals_witness :
  let orders := [filled_order "AAPL" "buy" T1 "100" "10" Absent;
                 filled_order "MSFT" "buy" T1 "50" "2" Absent;
                 filled_order "AAPL" "sell" T2 "110" "10" Absent] in
  Forall2 (fun o r => exists symbol side, Trades.row_of decimal_float o = Ok (symbol, side, r))
    orders (Trades.printed (fst (Trades.run decimal_float orders))).
Proof.
  intros orders.
  apply (proj2 (proj2 (proj2 (proj2 (proj2 (proj2
          (aggregation_conserves_totals decimal_float orders))))))).
  reflexivity.
Defined.

(** The row of an order that was never filled: its creation time, cut to
    nineteen characters. *)
Lemma time_column_bounds_witness :
  let o := open_order "AAPL" "buy" T1 "10" in
  let r := mkRow "AAPL" "buy" (SStr "10") 0 0 "2026-01-13T10:00:00" in
  (1 <= String.length (r_time r) <= 19)%nat /\
  (get_default (o_filled_at o) (get_default (o_created_at o) (Some "")) = None \/
   get_default (o_filled_at o) (get_default (o_created_at o) (Some "")) = Some "" ->
   r_time r = "N/A").
Proof.
  intros o r.
  apply (time_column_bounds decimal_float o (Some "AAPL") (Some "buy") r).
  vm_compute. reflexivity.
Defined.

(** * The price table *)

Section PriceTable.

Lemma comprehension_ranges (data : list ohlcv) :
  Prices.comprehension Prices.bar_range (to_bar <$> data) =
  Ok ((fun x => px_high x - px_low x) <$> data).
Proof.
  induction data as [|x data IH]; [reflexivity|].
  rewrite !fmap_cons. cbn [Prices.comprehension]. rewrite IH. reflexivity.
Qed.

Lemma comprehension_volumes (data : list ohlcv) :
  Prices.comprehension Prices.bar_volume (to_bar <$> data) =
  Ok ((fun x => Some (volume x)) <$> data).
Proof.
  induction data as [|x data IH]; [reflexivity|].
  rewrite !fmap_cons. cbn [Prices.comprehension]. rewrite IH. reflexivity.
Qed.

Lemma comprehension_num (data : list ohlcv) :
  Prices.comprehension Prices.num ((fun x => Some (volume x)) <$> data) =
  Ok (volume <$> data).
Proof.
  induction data as [|x data IH]; [reflexivity|].
  rewrite !fmap_cons. cbn [Prices.comprehension]. rewrite IH. reflexivity.
Qed.

Lemma last_to_bar (data : list ohlcv) (d : ohlcv) :
  List.last (to_bar <$> data) (to_bar d) = to_bar (List.last data d).
Proof.
  induction data as [|x [|y data] IH]; [reflexivity|reflexivity|].
  exact IH.
Qed.

Lemma mean_nonempty {A} (f : A -> Q) (x : A) (l : list A) :
  Prices.mean (f <$> x :: l) =
  Ok (py_sum (f <$> x :: l) / inject_Z (Z.of_nat (length (x :: l)))).
Proof.
  unfold Prices.mean, py_div. rewrite length_fmap. reflexivity.
Qed.

(** With complete bars only the two divisions by a price can fail. *)
Lemma report_complete (first : ohlcv) (rest : list ohlcv) :
  let data := first :: rest in
  let last := List.last data first in
  Prices.report (ok_response data) =
  (d1 ← py_div (px_close last - px_open first) (px_open first);
   d2 ← py_div (py_sum ((fun x => px_high x - px_low x) <$> data) /
                inject_Z (Z.of_nat (length data))) (px_close last);
   Ok (Stats (length data) (px_open first) (px_close last) (d1 * 100) (d2 * 100)
         (py_sum (volume <$> data) / inject_Z (Z.of_nat (length data))))).
Proof.
  intros data last. unfold Prices.report, ok_response.
  cbn [status_code bars get_default]. rewrite bool_decide_eq_true_2 by reflexivity.
  subst data. rewrite fmap_cons. cbv zeta. rewrite <- fmap_cons.
  rewrite last_to_bar. fold last.
  cbn [to_bar bar_o bar_c getitem Prices.num mbind result_bind].
  destruct (py_div (px_close last - px_open first) (px_open first)) as [d1|]; [|reflexivity].
  cbn [mbind result_bind].
  rewrite comprehension_ranges. cbn [mbind result_bind].
  rewrite mean_nonempty. cbn [mbind result_bind].
  destruct (py_div _ (px_close last)) as [d2|]; [|reflexivity].
  cbn [mbind result_bind].
  rewrite comprehension_volumes. cbn [mbind result_bind].
  rewrite comprehension_num. cbn [mbind result_bind].
  rewrite mean_nonempty. cbn [mbind result_bind].
  now rewrite !length_fmap.
Qed.

Lemma py_sum_sum_list (l : list Q) : py_sum l == sum_list l.
Proof.
  unfold py_sum.
  change (fold_left Qplus l 0) with (fold_left (fun acc item => acc + id item) l 0).
  rewrite fold_left_sum, list_fmap_id. ring.
Qed.

Lemma inject_length_cons {A} (x : A) (l : list A) :
  inject_Z (Z.of_nat (length (x :: l))) == 1 + inject_Z (Z.of_nat (length l)).
Proof.
  cbn [length]. rewrite Nat2Z.inj_succ, <- Z.add_1_l, inject_Z_plus. reflexivity.
Qed.

Lemma inject_length_pos {A} (x : A) (l : list A) :
  0 < inject_Z (Z.of_nat (length (x :: l))).
Proof. unfold Qlt. cbn. lia. Qed.

Lemma sum_list_lower (m : Q) (l : list Q) :
  Forall (fun x => m <= x) l -> inject_Z (Z.of_nat (length l)) * m <= sum_list l.
Proof.
  induction 1 as [|x l Hx _ IH].
  - rewrite sum_list_nil. cbn [length]. rewrite Qmult_0_l. apply Qle_refl.
  - rewrite sum_list_cons, inject_length_cons.
    apply Qle_trans with (m + inject_Z (Z.of_nat (length l)) * m).
    + apply Qle_lteq. right. ring.
    + now apply Qplus_le_compat.
Qed.

(** The mean of a non-empty list is at least any lower bound of its
    elements. *)
Lemma mean_lower {A} (f : A -> Q) (m : Q) (x : A) (l : list A) :
  Forall (fun a => m <= f a) (x :: l) ->
  m <= py_sum (f <$> x :: l) / inject_Z (Z.of_nat (length (x :: l))).
Proof.
  intros Hm. pose proof (inject_length_pos x l) as Hpos.
  rewrite py_sum_sum_list. rewrite <- (length_fmap f (x :: l)) in *.
  apply Qle_shift_div_l; [exact Hpos|]. rewrite Qmult_comm.
  apply sum_list_lower. now apply Forall_fmap.
Qed.

(** For a response with status 200 and complete bars, the line of a symbol
    fails exactly when the first open or the last close is zero, and then
    with ZeroDivisionError; otherwise it shows the number of bars, the first
    open, the last close, the change between them in percent of the open,
    the mean high-low range in percent of the close, and the mean volume. *)
Theorem price_line_defined (first : ohlcv) (rest : list ohlcv) :
  let data := first :: rest in
  let last := List.last data first in
  let n := inject_Z (Z.of_nat (length data)) in
  (px_open first == 0 \/ px_close last == 0 ->
   Prices.report (ok_response data) = Raise ZeroDivisionError) /\
  (~ px_open first == 0 -> ~ px_close last == 0 ->
   Prices.report (ok_response data) =
   Ok (Stats (length data) (px_open first) (px_close last)
         ((px_close last - px_open first) / px_open first * 100)
         (py_sum ((fun x => px_high x - px_low x) <$> data) / n / px_close last * 100)
         (py_sum (volume <$> data) / n))).
Proof.
  intros data last n. subst n last data.
  rewrite (report_complete first rest). cbv zeta.
  set (data := first :: rest). set (last := List.last data first). unfold py_div.
  split.
  - intros [Ho|Hc].
    + apply Qeq_bool_iff in Ho. now rewrite Ho.
    + apply Qeq_bool_iff in Hc. rewrite Hc.
      now destruct (Qeq_bool (px_open first) 0).
  - intros Ho Hc.
    destruct (Qeq_bool (px_open first) 0) eqn:Eo; [now apply Qeq_bool_iff in Eo|].
    destruct (Qeq_bool (px_close last) 0) eqn:Ec; [now apply Qeq_bool_iff in Ec|].
    reflexivity.
Qed.

(** Whenever a line is printed for a response with status 200 and complete
    bars: it is the no-data line only when there are no bars; otherwise it
    counts the bars, its change is positive exactly when the close is above
    a positive open, its range is not negative when no bar has its low above
    its high and the close is positive, and its mean volume is not negative
    when no volume is. *)
Theorem price_line_bounds (data : list ohlcv) (line : price_line) :
  Prices.report (ok_response data) = Ok line ->
  match line with
  | Stats n o c change_pct range_pct avg_vol =>
      n = length data /\ (1 <= n)%nat /\
      (0 < o -> (0 < change_pct <-> o < c)) /\
      (0 < c -> Forall (fun x => px_low x <= px_high x) data -> 0 <= range_pct) /\
      (Forall (fun x => 0 <= volume x) data -> 0 <= avg_vol)
  | NoData => data = []
  | HttpError _ => False
  end.
Proof.
  destruct data as [|first rest].
  - intros [= <-]. reflexivity.
  - rewrite (report_complete first rest). cbv zeta.
    set (data := first :: rest). set (last := List.last data first).
    unfold py_div.
    destruct (Qeq_bool (px_open first) 0); [discriminate|]. cbn [mbind result_bind].
    destruct (Qeq_bool (px_close last) 0); [discriminate|]. cbn [mbind result_bind].
    intros [= <-]. split; [reflexivity|]. split; [cbn [length]; lia|].
    split; [|split].
    + intros Ho. split.
      * intros Hch. apply Qnot_le_lt. intros Hle.
        apply (Qlt_not_le _ _ Hch).
        apply Qle_trans with (0 * 100); [|apply Qle_lteq; right; ring].
        apply Qmult_le_compat_r; [|discriminate].
        apply Qle_shift_div_r; [exact Ho|]. rewrite Qmult_0_l.
        apply (Qplus_le_l _ _ (px_open first)).
        apply Qle_trans with (px_close last); [apply Qle_lteq; right; ring|].
        apply Qle_trans with (px_open first); [exact Hle|apply Qle_lteq; right; ring].
      * intros Hlt. apply Qmult_lt_0_compat; [|reflexivity].
        apply Qlt_shift_div_l; [exact Ho|]. rewrite Qmult_0_l.
        unfold Qminus. now apply -> Qlt_minus_iff.
    + intros Hc Hhl. apply Qle_trans with (0 * 100); [discriminate|].
      apply Qmult_le_compat_r; [|discriminate].
      apply Qle_shift_div_l; [exact Hc|]. rewrite Qmult_0_l.
      apply (mean_lower (fun x => px_high x - px_low x) 0 first rest).
      eapply Forall_impl; [exact Hhl|]. intros x Hx. cbv beta.
      apply (Qplus_le_l _ _ (px_low x)).
      apply Qle_trans with (px_low x); [apply Qle_lteq; right; ring|].
      apply Qle_trans with (px_high x); [exact Hx|apply Qle_lteq; right; ring].
    + intros Hv. now apply (mean_lower volume 0 first rest).
Qed.

End PriceTable.

(** Two bars of a rising symbol. *)
Lemma price_line_bounds_witness :
  let data := [mkOhlcv 100 102 99 101 5000; mkOhlcv 101 103 100 102 7000] in
  let change_pct := (102 - 100) / 100 * 100 in
  let range_pct := py_sum [102 - 99; 103 - 100] / 2 / 102 * 100 in
  let avg_vol := py_sum [5000; 7000] / 2 in
  2%nat = length data /\ (1 <= 2)%nat /\
  (0 < 100 -> (0 < change_pct <-> 100 < 102)) /\
  (0 < 102 -> Forall (fun x => px_low x <= px_high x) data -> 0 <= range_pct) /\
  (Forall (fun x => 0 <= volume x) data -> 0 <= avg_vol).
Proof.
  intros data change_pct range_pct avg_vol.
  apply (price_line_bounds data (Stats 2 100 102 change_pct range_pct avg_vol)).
  vm_compute. reflexivity.
Defined.

Section FloatTotals.

Import PrimFloat.

(** In binary64 the two P&L figures of the per-symbol script differ: an AAPL
    sell of 1.5 at 4.41, a TSLA sell of 3 at 5.31 and a TSLA buy of 5 at
    6.3 give total sold minus total bought above the sum of the per-symbol
    differences (-8.954999999999998 against -8.955, printed to the cent as
    -8.95 and -8.96). *)
Lemma binary64_totals_disagree :
  let d := Binary64.decimal in
  let fills :=
    [Binary64.mkFill "AAPL" "sell" (d 441 100) (d 15 10);
     Binary64.mkFill "TSLA" "sell" (d 531 100) (d 3 1);
     Binary64.mkFill "TSLA" "buy" (d 63 10) (d 5 1)]%float in
  let st := Binary64.run fills in
  PrimFloat.eqb (Binary64.total_pnl (Binary64.pairs st)) (Binary64.net_pnl st) = false /\
  PrimFloat.ltb (Binary64.total_pnl (Binary64.pairs st)) (Binary64.net_pnl st) = true /\
  PrimFloat.eqb (Binary64.total_pnl (Binary64.pairs st)) (d (-8955) 1000)%float = true /\
  PrimFloat.ltb (d (-8955) 1000)%float (Binary64.net_pnl st) = true.
Proof. vm_compute. repeat split. Qed.

End FloatTotals.
